(** * plotman.monitor: the live dashboard of plotman

    A shallow embedding of [src/plotman/monitor.py]: the two row types
    ([JobRow], [TmpRow]), the view-model builders ([build_jobs_data],
    [build_tmp_data]), the tables, and the two refresh loops
    ([with_rich], [with_prompt_toolkit]).

    Collaborators that live in other modules of plotman
    ([plotman.reporting], [plotman.plot_util], [plotman.manager],
    [plotman.job]) are the fields of the class [Collaborators]: the
    theorems hold for every instance of it.  What the loops meet outside
    (running jobs, keys, exceptions, cancellation) is a [World]. *)

From Stdlib Require Import String Ascii DecimalString ZArith Bool Lia.
From Stdlib Require Import List Sorted Permutation OrderedTypeEx.
From Stdlib Require DecimalZ DecimalPos Finite.
Import ListNotations.

Open Scope string_scope.
Open Scope list_scope.
Open Scope Z_scope.

(** ** Python values

    The attributes handed to an [attr] class are dynamically typed; the
    [str] converter of [row_ib] is what turns them into strings. *)

Inductive value : Type :=
| VStr (s : string)
| VInt (z : Z)
| VBool (b : bool)
| VNone.

(** [str(x)] of the builtin types used in this module. *)
Definition str (v : value) : string :=
  match v with
  | VStr s => s
  | VInt z => NilZero.string_of_int (Z.to_int z)
  | VBool true => "True"
  | VBool false => "False"
  | VNone => "None"
  end.

Definition is_str (v : value) : bool :=
  match v with VStr _ => true | _ => false end.

(** ** [sorted(iterable, key=...)]

    Python's [sorted] is a stable sort that compares keys with [<] only.
    It is modelled by the stable insertion sort: the first element of the
    input goes into the sorted rest after the elements whose key is
    smaller and before the first one whose key is not.  (Any stable sort
    returns the same list: [stable_sort_unique] below.) *)

Section PySorted.
Context {A K : Type}.
Variable ltb : K -> K -> bool.
Variable key : A -> K.

Fixpoint insert (x : A) (l : list A) : list A :=
  match l with
  | [] => [x]
  | y :: l' => if ltb (key y) (key x) then y :: insert x l' else x :: l
  end.

Definition sorted (l : list A) : list A := fold_right insert [] l.

(** [a] may stand before [b] in a sorted list: [not (b < a)]. *)
Definition key_le (a b : A) : Prop := ltb (key b) (key a) = false.

End PySorted.

(** [enumerate(l)], counting from [start]. *)
Fixpoint enumerate_from {A} (start : Z) (l : list A) : list (Z * A) :=
  match l with
  | [] => []
  | x :: l' => (start, x) :: enumerate_from (start + 1) l'
  end.

Definition enumerate {A} (l : list A) : list (Z * A) := enumerate_from 0 l.

(** ** Configuration (the part of [cfg] the dashboard reads) *)

Module Directories.
Record t : Type := mk { tmp : list string; dst : list string; log : string }.
End Directories.

(** ** [row_ib] and the two row classes *)

Record attrib : Type := { converter : value -> value; metadata_name : string }.

(** [attr.ib(converter=str, metadata={'name': name})] *)
Definition row_ib (name : string) : attrib :=
  {| converter := fun v => VStr (str v); metadata_name := name |}.

Record JobRow : Type := mkJobRow {
  plot_id : value; k : value; tmp_path : value; dst : value; wall : value;
  phase : value; tmp_usage : value; pid : value; stat : value; mem : value;
  user : value; sys : value; io : value }.

(** [attr.fields(JobRow)], in declaration order. *)
Definition JobRow_fields : list attrib :=
  [ row_ib "plot id"; row_ib "k"; row_ib "tmp"; row_ib "dst"; row_ib "wall";
    row_ib "phase"; row_ib "tmp"; row_ib "pid"; row_ib "stat"; row_ib "mem";
    row_ib "user"; row_ib "sys"; row_ib "io" ].

(** The [__init__] that [attr.frozen] generates: every argument goes
    through the converter of its attribute. *)
Definition JobRow_cls
    (plot_id k tmp_path dst wall phase tmp_usage pid stat mem user sys io : value)
    : JobRow :=
  {| plot_id := converter (row_ib "plot id") plot_id;
     k := converter (row_ib "k") k;
     tmp_path := converter (row_ib "tmp") tmp_path;
     dst := converter (row_ib "dst") dst;
     wall := converter (row_ib "wall") wall;
     phase := converter (row_ib "phase") phase;
     tmp_usage := converter (row_ib "tmp") tmp_usage;
     pid := converter (row_ib "pid") pid;
     stat := converter (row_ib "stat") stat;
     mem := converter (row_ib "mem") mem;
     user := converter (row_ib "user") user;
     sys := converter (row_ib "sys") sys;
     io := converter (row_ib "io") io |}.

(** [attr.astuple(row)] *)
Definition JobRow_astuple (r : JobRow) : list value :=
  [ plot_id r; k r; tmp_path r; dst r; wall r; phase r; tmp_usage r; pid r;
    stat r; mem r; user r; sys r; io r ].

Record TmpRow : Type := mkTmpRow { path : value; ready : value; phases : value }.

Definition TmpRow_fields : list attrib :=
  [ row_ib "tmp"; row_ib "ready"; row_ib "phases" ].

Definition TmpRow_cls (path ready phases : value) : TmpRow :=
  {| path := converter (row_ib "tmp") path;
     ready := converter (row_ib "ready") ready;
     phases := converter (row_ib "phases") phases |}.

Definition TmpRow_astuple (r : TmpRow) : list value :=
  [ path r; ready r; phases r ].

(** ** [rich.table.Table], as far as the builders fill it *)

Record Table : Type := { columns : list string; table_rows : list (list value) }.

Definition add_column (name : string) (t : Table) : Table :=
  {| columns := columns t ++ [name]; table_rows := table_rows t |}.

Definition add_row (cells : list value) (t : Table) : Table :=
  {| columns := columns t; table_rows := table_rows t ++ [cells] |}.

Definition empty_table : Table := {| columns := []; table_rows := [] |}.

(** [build_jobs_table] *)
Definition build_jobs_table (jobs_data : list JobRow) : Table :=
  let table := add_column "#" empty_table in
  let table :=
    fold_left (fun t field => add_column (metadata_name field) t)
              JobRow_fields table in
  fold_left (fun t ir => add_row (VStr (str (VInt (fst ir))) :: JobRow_astuple (snd ir)) t)
            (enumerate jobs_data) table.

(** [build_tmp_table] *)
Definition build_tmp_table (tmp_data : list TmpRow) : Table :=
  let table :=
    fold_left (fun t field => add_column (metadata_name field) t)
              TmpRow_fields empty_table in
  fold_left (fun t row => add_row (TmpRow_astuple row) t) tmp_data table.

(** ** Jobs and the collaborators of other plotman modules *)

(** [plotman.job.Phase] and its [<]. *)
Class PhaseType : Type := {
  Phase : Type;
  phase_ltb : Phase -> Phase -> bool }.

(** What the dashboard reads of a [plotman.job.Job] during one tick:
    two attributes of the job and the results of its accessors. *)
Record Job `{PhaseType} : Type := mkJob {
  job_plot_id : string;
  job_k : Z;
  tmpdir : string;
  dstdir : string;
  get_time_wall : Z;
  progress : Phase;
  get_tmp_usage : Z;
  proc_pid : Z;
  get_run_status : string;
  get_mem_usage : Z;
  get_time_user : Z;
  get_time_sys : Z;
  get_time_iowait : Z }.

(** The functions of [plotman.reporting], [plotman.plot_util],
    [plotman.job] and [plotman.manager] that [monitor.py] calls, typed by
    their contracts, and [os.path.commonpath] ([None]: it raises
    [ValueError]).  [Scheduling] is the type of [cfg.scheduling], which is
    only handed on to the scheduling policy. *)
Class Collaborators `{PhaseType} : Type := {
  Scheduling : Type;
  abbr_path : string -> string -> string;
  time_format : Z -> string;
  human_format : Z -> Z -> string;
  phase_str : Phase -> string;
  phases_str : list Phase -> Z -> string;
  job_phases_for_tmpdir : string -> list Job -> list Phase;
  phases_permit_new_job :
    list Phase -> string -> Scheduling -> Directories.t -> bool;
  commonpath : list string -> option string }.

(** ** The view-model builders *)

Section ViewModel.
Context `{C : Collaborators}.

(** [JobRow.from_job] *)
Definition from_job (job : Job) (dst_prefix tmp_prefix : string) : JobRow :=
  JobRow_cls
    (VStr (substring 0 8 (job_plot_id job)))
    (VInt (job_k job))
    (VStr (abbr_path (tmpdir job) tmp_prefix))
    (VStr (abbr_path (dstdir job) dst_prefix))
    (VStr (time_format (get_time_wall job)))
    (VStr (phase_str (progress job)))
    (VStr (human_format (get_tmp_usage job) 0))
    (VInt (proc_pid job))
    (VStr (get_run_status job))
    (VStr (human_format (get_mem_usage job) 1))
    (VStr (time_format (get_time_user job)))
    (VStr (time_format (get_time_sys job)))
    (VStr (time_format (get_time_iowait job))).

(** [build_jobs_data] *)
Definition build_jobs_data (jobs : list Job) (dst_prefix tmp_prefix : string)
    : list JobRow :=
  let sorted_jobs := sorted Z.ltb get_time_wall jobs in
  map (fun ij => from_job (snd ij) dst_prefix tmp_prefix) (enumerate sorted_jobs).

(** The local [phases] of [TmpRow.from_tmp]. *)
Definition from_tmp_phases (jobs : list Job) (tmp : string) : list Phase :=
  sorted phase_ltb (fun ph => ph) (job_phases_for_tmpdir tmp jobs).

(** [TmpRow.from_tmp] *)
Definition from_tmp (dir_cfg : Directories.t) (jobs : list Job)
    (sched_cfg : Scheduling) (tmp prefix : string) : TmpRow :=
  let phases := from_tmp_phases jobs tmp in
  let tmp_suffix := abbr_path tmp prefix in
  let ready := phases_permit_new_job phases tmp_suffix sched_cfg dir_cfg in
  TmpRow_cls
    (VStr tmp_suffix)
    (VStr (if ready then "OK" else "--"))
    (VStr (phases_str phases 5)).

(** [build_tmp_data] *)
Definition build_tmp_data (jobs : list Job) (dir_cfg : Directories.t)
    (sched_cfg : Scheduling) (prefix : string) : list TmpRow :=
  map (fun tmp => from_tmp dir_cfg jobs sched_cfg tmp prefix)
      (sorted String.ltb (fun tmp => tmp) (Directories.tmp dir_cfg)).

End ViewModel.

(** ** The screen, the terminal and the environment of the loops *)

(** What a screen region holds: nothing yet, a text, a [rich] table, or
    the [prompt_toolkit.ANSI] capture of a table printed on the console. *)
Inductive renderable : Type :=
| Placeholder
| RText (s : string)
| RTable (t : Table)
| RAnsi (t : Table).

Inductive region : Type := Header | Plots | Disks.

(** The screen model: [header_layout], [plots_layout] and [tmp_layout]
    of [with_rich]; [header_buffer], [plots_buffer] and [disks_buffer] of
    [with_prompt_toolkit]. *)
Record Screen : Type := {
  header_region : renderable;
  plots_region : renderable;
  disks_region : renderable }.

Definition screen_update (r : region) (x : renderable) (sc : Screen) : Screen :=
  match r with
  | Header => {| header_region := x; plots_region := plots_region sc;
                 disks_region := disks_region sc |}
  | Plots => {| header_region := header_region sc; plots_region := x;
                disks_region := disks_region sc |}
  | Disks => {| header_region := header_region sc;
                plots_region := plots_region sc; disks_region := x |}
  end.

(** [KeyPress.key]: a plain character or a member of [prompt_toolkit.keys.Keys]. *)
Inductive Key : Type :=
| KeyStr (s : string)
| KeysControlC
| KeysOther (name : string).

Record KeyPress : Type := { kp_key : Key; kp_data : string }.

(** [key.key in {'q', Keys.ControlC}] *)
Definition in_quit_keys (kp : KeyPress) : bool :=
  match kp_key kp with
  | KeyStr s => String.eqb s "q"
  | KeysControlC => true
  | KeysOther _ => false
  end.

Inductive exn : Type := Exception (name : string).

(** The calls of one tick during which code outside [monitor.py] runs
    and may raise. *)
Inductive step : Type :=
| SGetRunningJobs
| SBuildJobsData
| SBuildTmpData
| SRedraw
| SReadKeys (slice : nat).

(** How a statement ends: normally, by [return], by an exception, by the
    cancellation of the enclosing scope, or not yet ([Running]: the
    bound on the number of ticks was reached inside it). *)
Inductive result (A : Type) : Type :=
| Ok (a : A)
| Return_
| Raise (e : exn)
| Cancel
| Running.
Arguments Ok {A} a.
Arguments Return_ {A}.
Arguments Raise {A} e.
Arguments Cancel {A}.
Arguments Running {A}.

Section Loops.
Context `{C : Collaborators}.

(** Everything the loops observe of the outside, by tick number: the
    answer of [Job.get_running_jobs], the keys read in each slice of the
    wait, an exception raised inside a call, a failure to enter raw mode
    or the live display, and (cooperative backend) whether the cancel
    scope has been cancelled when the render task suspends. *)
Record World : Type := {
  running_jobs : nat -> string -> list Job -> list Job;
  keys_read : nat -> nat -> list KeyPress;
  fault : nat -> step -> option exn;
  raw_mode_fault : option exn;
  live_fault : option exn;
  cancelled : nat -> bool }.

Record Config : Type := { directories : Directories.t; scheduling : Scheduling }.

Inductive event : Type :=
| RawModeEnter
| RawModeExit
| LiveStart
| LiveStop
| TaskGroupEnter
| TaskGroupExit
| AddKeyBinding (k : string)
| StartSoon
| Update (r : region) (x : renderable)
| GetRunningJobs (logdir : string) (cached_jobs result : list Job)
| Redraw (frame : Screen)
| ReadKeys (keys : list KeyPress)
| Sleep (ms : Z)
| Suspend (ms : Z).

(** The state a loop threads: the screen model, the local [jobs], and
    the events so far (oldest first). *)
Record State : Type := {
  screen : Screen;
  jobs : list Job;
  trace : list event }.

Definition M (A : Type) : Type := State -> State * result A.

Definition ret {A} (a : A) : M A := fun s => (s, Ok a).

Definition bind {A B} (m : M A) (f : A -> M B) : M B :=
  fun s =>
    match m s with
    | (s', Ok a) => f a s'
    | (s', Return_) => (s', Return_)
    | (s', Raise e) => (s', Raise e)
    | (s', Cancel) => (s', Cancel)
    | (s', Running) => (s', Running)
    end.

Notation "x <- m ;; f" := (bind m (fun x => f))
  (at level 61, m at next level, right associativity).
Notation "m ;; f" := (bind m (fun _ => f))
  (at level 61, right associativity).

Definition log_event (ev : event) (s : State) : State :=
  {| screen := screen s; jobs := jobs s; trace := trace s ++ [ev] |}.

Definition log_events (evs : list event) (s : State) : State :=
  {| screen := screen s; jobs := jobs s; trace := trace s ++ evs |}.

Definition emit (ev : event) : M unit := fun s => (log_event ev s, Ok tt).

Definition raise {A} (e : exn) : M A := fun s => (s, Raise e).

Definition return_ {A} : M A := fun s => (s, Return_).

(** A call into outside code: it raises when the world says so. *)
Definition call {A} (flt : option exn) (a : A) : M A :=
  match flt with
  | Some e => raise e
  | None => ret a
  end.

(** [with enter: body]: the exit runs however the body ends. *)
Definition with_ {A} (flt : option exn) (enter exit : event) (body : M A) : M A :=
  fun s =>
    match flt with
    | Some e => (s, Raise e)
    | None =>
        match body (log_event enter s) with
        | (s', Running) => (s', Running)
        | (s', r) => (log_event exit s', r)
        end
    end.

(** [async with anyio.create_task_group()]: as [with_], and the group
    absorbs the cancellation of its own scope. *)
Definition task_group {A} (body : M A) : M unit :=
  fun s =>
    match body (log_event TaskGroupEnter s) with
    | (s', Running) => (s', Running)
    | (s', Raise e) => (log_event TaskGroupExit s', Raise e)
    | (s', Return_) => (log_event TaskGroupExit s', Return_)
    | (s', _) => (log_event TaskGroupExit s', Ok tt)
    end.

(** [for x in l: body x] *)
Fixpoint for_each {A} (l : list A) (body : A -> M unit) : M unit :=
  match l with
  | [] => ret tt
  | x :: l' => body x ;; for_each l' body
  end.

(** [range(n)] *)
Definition range (n : nat) : list nat := seq 0 n.

(** [for i in itertools.count(): body i], cut after [fuel] iterations. *)
Fixpoint for_count (fuel : nat) (i : nat) (body : nat -> M unit) : M unit :=
  match fuel with
  | O => fun s => (s, Running)
  | S fuel' => body i ;; for_count fuel' (S i) body
  end.

(** The end of a function body: [return] ends the call normally. *)
Definition def {A} (body : M A) : M unit :=
  fun s =>
    match body s with
    | (s', Ok _) => (s', Ok tt)
    | (s', Return_) => (s', Ok tt)
    | (s', Raise e) => (s', Raise e)
    | (s', Cancel) => (s', Cancel)
    | (s', Running) => (s', Running)
    end.

Variable w : World.
Variable cfg : Config.

(** [layout.update(x)] and [buffer.text = x] *)
Definition update (r : region) (x : renderable) : M unit :=
  fun s =>
    (log_event (Update r x)
       {| screen := screen_update r x (screen s); jobs := jobs s; trace := trace s |},
     Ok tt).

(** [jobs = plotman.job.Job.get_running_jobs(cfg.directories.log, cached_jobs=jobs)] *)
Definition get_running_jobs (i : nat) : M (list Job) :=
  fun s =>
    match fault w i SGetRunningJobs with
    | Some e => (s, Raise e)
    | None =>
        let logdir := Directories.log (directories cfg) in
        let js := running_jobs w i logdir (jobs s) in
        (log_event (GetRunningJobs logdir (jobs s) js)
           {| screen := screen s; jobs := js; trace := trace s |},
         Ok js)
    end.

(** [live.refresh()] and [application.invalidate()]: the screen model as
    it is now goes to the terminal. *)
Definition redraw (i : nat) : M unit :=
  fun s =>
    match fault w i SRedraw with
    | Some e => (s, Raise e)
    | None => (log_event (Redraw (screen s)) s, Ok tt)
    end.

(** [prompt_toolkit_input.read_keys()] *)
Definition read_keys (i slice : nat) : M (list KeyPress) :=
  match fault w i (SReadKeys slice) with
  | Some e => raise e
  | None => emit (ReadKeys (keys_read w i slice)) ;; ret (keys_read w i slice)
  end.

(** [capture_rich] *)
Definition capture_rich (t : Table) : renderable := RAnsi t.

(** One slice of the wait of [with_rich]: lines 96-100. *)
Definition wait_slice (i slice : nat) : M unit :=
  keys <- read_keys i slice ;;
  if existsb in_quit_keys keys then return_
  else emit (Sleep 100).

(** The wait of [with_rich]: lines 95-100. *)
Definition wait_for_input (i : nat) : M unit :=
  for_each (range 10) (wait_slice i).

(** One iteration of the loop of [with_rich]: lines 69-100. *)
Definition with_rich_tick (tmp_prefix dst_prefix : string) (i : nat) : M unit :=
  update Header (RText (str (VInt (Z.of_nat i)))) ;;
  jobs <- get_running_jobs i ;;
  jobs_data <- call (fault w i SBuildJobsData)
                 (build_jobs_data jobs dst_prefix tmp_prefix) ;;
  let jobs_table := build_jobs_table jobs_data in
  update Plots (RTable jobs_table) ;;
  tmp_data <- call (fault w i SBuildTmpData)
                (build_tmp_data jobs (directories cfg) (scheduling cfg) tmp_prefix) ;;
  let tmp_table := build_tmp_table tmp_data in
  update Disks (RTable tmp_table) ;;
  redraw i ;;
  wait_for_input i.

Definition os_path_commonpath (paths : list string) : M string :=
  match commonpath paths with
  | Some p => ret p
  | None => raise (Exception "ValueError")
  end.

(** [with_rich], from a validated configuration, cut after [fuel] ticks. *)
Definition with_rich (fuel : nat) : M unit :=
  def (
    tmp_prefix <- os_path_commonpath (Directories.tmp (directories cfg)) ;;
    dst_prefix <- os_path_commonpath (Directories.dst (directories cfg)) ;;
    with_ (raw_mode_fault w) RawModeEnter RawModeExit (
      with_ (live_fault w) LiveStart LiveStop (
        for_count fuel 0 (with_rich_tick tmp_prefix dst_prefix)))).

(** [await anyio.sleep(1)]: the render task suspends, and is cancelled
    there when the scope has been cancelled meanwhile. *)
Definition anyio_sleep (i : nat) (ms : Z) : M unit :=
  emit (Suspend ms) ;;
  if cancelled w i then (fun s => (s, Cancel)) else ret tt.

(** One iteration of the loop of [with_prompt_toolkit]: lines 155-181. *)
Definition with_prompt_toolkit_tick (tmp_prefix dst_prefix : string) (i : nat)
    : M unit :=
  update Header (RText (str (VInt (Z.of_nat i)))) ;;
  jobs <- get_running_jobs i ;;
  jobs_data <- call (fault w i SBuildJobsData)
                 (build_jobs_data jobs dst_prefix tmp_prefix) ;;
  let jobs_table := build_jobs_table jobs_data in
  update Plots (capture_rich jobs_table) ;;
  tmp_data <- call (fault w i SBuildTmpData)
                (build_tmp_data jobs (directories cfg) (scheduling cfg) tmp_prefix) ;;
  let tmp_table := build_tmp_table tmp_data in
  update Disks (capture_rich tmp_table) ;;
  redraw i ;;
  anyio_sleep i 1000.

(** [with_prompt_toolkit], from a validated configuration, cut after
    [fuel] ticks.  The input task ([cancel_after_application]) runs only
    while the render task is suspended; the world's [cancelled] says when
    it has cancelled the scope. *)
Definition with_prompt_toolkit (fuel : nat) : M unit :=
  def (
    tmp_prefix <- os_path_commonpath (Directories.tmp (directories cfg)) ;;
    dst_prefix <- os_path_commonpath (Directories.dst (directories cfg)) ;;
    task_group (
      emit (AddKeyBinding "q") ;;
      emit (AddKeyBinding "c-c") ;;
      emit StartSoon ;;
      for_count fuel 0 (with_prompt_toolkit_tick tmp_prefix dst_prefix))).

(** The states the two loops start from: [jobs = []], empty layouts
    (polling backend), empty text buffers (cooperative backend). *)
Definition rich_init : State :=
  {| screen := {| header_region := Placeholder; plots_region := Placeholder;
                  disks_region := Placeholder |};
     jobs := []; trace := [] |}.

Definition prompt_toolkit_init : State :=
  {| screen := {| header_region := RText ""; plots_region := RText "";
                  disks_region := RText "" |};
     jobs := []; trace := [] |}.

End Loops.

(** ** What a run should look like

    The event sequences the theorems compare the runs with. *)

Section Expected.
Context `{C : Collaborators}.
Variable w : World.
Variable cfg : Config.

(** [wrap] is what a backend stores for a table: the table itself
    (polling backend) or its capture (cooperative backend). *)
Variable wrap : Table -> renderable.
Variables tmp_prefix dst_prefix : string.

Definition logdir : string := Directories.log (directories cfg).

Definition jobs_renderable (js : list Job) : renderable :=
  wrap (build_jobs_table (build_jobs_data js dst_prefix tmp_prefix)).

Definition tmp_renderable (js : list Job) : renderable :=
  wrap (build_tmp_table
          (build_tmp_data js (directories cfg) (scheduling cfg) tmp_prefix)).

(** The frame of tick [i] when the sample of that tick is [js]. *)
Definition tick_frame (i : nat) (js : list Job) : Screen :=
  {| header_region := RText (str (VInt (Z.of_nat i)));
     plots_region := jobs_renderable js;
     disks_region := tmp_renderable js |}.

(** The writes of tick [i] that come before its redraw. *)
Definition tick_updates (i : nat) (cached js : list Job) : list event :=
  [ Update Header (RText (str (VInt (Z.of_nat i))));
    GetRunningJobs logdir cached js;
    Update Plots (jobs_renderable js);
    Update Disks (tmp_renderable js) ].

(** Sampling and rendering of tick [i], from the jobs of the tick before. *)
Definition render_events (i : nat) (cached : list Job) : list event :=
  let js := running_jobs w i logdir cached in
  tick_updates i cached js ++ [Redraw (tick_frame i js)].

(** The first [n] slices of the wait of tick [i], none of which quits. *)
Definition wait_events (i n : nat) : list event :=
  flat_map (fun slice => [ReadKeys (keys_read w i slice); Sleep 100]) (range n).

(** [n] whole ticks of the polling backend, from tick [i]. *)
Fixpoint ticks_events (n i : nat) (cached : list Job) : list event :=
  match n with
  | O => []
  | S n' =>
      render_events i cached ++ wait_events i 10 ++
      ticks_events n' (S i) (running_jobs w i logdir cached)
  end.

(** [n] whole ticks of the cooperative backend, from tick [i]. *)
Fixpoint coop_ticks_events (n i : nat) (cached : list Job) : list event :=
  match n with
  | O => []
  | S n' =>
      render_events i cached ++ [Suspend 1000] ++
      coop_ticks_events n' (S i) (running_jobs w i logdir cached)
  end.

(** The local [jobs] after [n] whole ticks, from tick [i]. *)
Fixpoint ticks_jobs (n i : nat) (cached : list Job) : list Job :=
  match n with
  | O => cached
  | S n' => ticks_jobs n' (S i) (running_jobs w i logdir cached)
  end.

(** The screen after [n] whole ticks, from tick [i]. *)
Fixpoint ticks_screen (n i : nat) (sc : Screen) (cached : list Job) : Screen :=
  match n with
  | O => sc
  | S n' =>
      let js := running_jobs w i logdir cached in
      ticks_screen n' (S i) (tick_frame i js) js
  end.

(** No call of the sampling and rendering of tick [i] raises. *)
Definition clean_render (i : nat) : bool :=
  match fault w i SGetRunningJobs, fault w i SBuildJobsData,
        fault w i SBuildTmpData, fault w i SRedraw with
  | None, None, None, None => true
  | _, _, _, _ => false
  end.

(** Slice [slice] of the wait of tick [i] reads its keys and finds no
    quit key among them. *)
Definition quiet_slice (i slice : nat) : bool :=
  match fault w i (SReadKeys slice) with
  | Some _ => false
  | None => negb (existsb in_quit_keys (keys_read w i slice))
  end.

(** Slice [slice] of the wait of tick [i] reads a quit key. *)
Definition quit_slice (i slice : nat) : bool :=
  match fault w i (SReadKeys slice) with
  | Some _ => false
  | None => existsb in_quit_keys (keys_read w i slice)
  end.

(** The first [n] slices of the wait of tick [i] are quiet. *)
Definition quiet (i n : nat) : bool := forallb (quiet_slice i) (range n).

(** The [n] ticks from tick [i] neither raise nor see a quit key. *)
Fixpoint clean_ticks (n i : nat) : bool :=
  match n with
  | O => true
  | S n' => clean_render i && quiet i 10 && clean_ticks n' (S i)
  end.

(** The [n] ticks from tick [i] neither raise nor are cancelled. *)
Fixpoint coop_clean_ticks (n i : nat) : bool :=
  match n with
  | O => true
  | S n' => clean_render i && negb (cancelled w i) && coop_clean_ticks n' (S i)
  end.

(** Every redraw in [evs] comes right after the four writes of one tick
    and shows exactly what they wrote. *)
Definition redraws_follow_updates (evs : list event) : Prop :=
  forall pre frame post,
    evs = pre ++ Redraw frame :: post ->
    exists pre' i cached,
      let js := running_jobs w i logdir cached in
      pre = pre' ++ tick_updates i cached js /\ frame = tick_frame i js.

(** The run quits in slice [k] of the wait of tick [n]: nothing raises
    up to there and that slice is the first to read a quit key. *)
Definition quits_at (n k : nat) : bool :=
  clean_ticks n 0 && clean_render n && quiet n k && quit_slice n k
  && Nat.ltb k 10.

(** Sampling raises in tick [n], after [n] ticks without incident. *)
Definition sampling_fails_at (n : nat) (e : exn) : Prop :=
  clean_ticks n 0 = true /\ fault w n SGetRunningJobs = Some e.

Definition coop_sampling_fails_at (n : nat) (e : exn) : Prop :=
  coop_clean_ticks n 0 = true /\ fault w n SGetRunningJobs = Some e.

(** The configuration has common paths; and the terminal and the live
    display can be entered. *)
Definition configured : Prop :=
  commonpath (Directories.tmp (directories cfg)) = Some tmp_prefix /\
  commonpath (Directories.dst (directories cfg)) = Some dst_prefix.

Definition starts : Prop :=
  configured /\ raw_mode_fault w = None /\ live_fault w = None.

End Expected.

(** [m] only appends events to the trace, and what it appends satisfies [Q]. *)
Definition emits `{PhaseType} (Q : list event -> Prop) {A} (m : M A) : Prop :=
  forall s, exists evs, trace (fst (m s)) = trace s ++ evs /\ Q evs.

Definition closed_under_app {E} (Q : list E -> Prop) : Prop :=
  Q [] /\ forall a b, Q a -> Q b -> Q (a ++ b).

(** All events of [evs] satisfy [P]. *)
Definition all_events `{PhaseType} (P : event -> bool) (evs : list event) : Prop :=
  forallb P evs = true.

Definition is_redraw `{PhaseType} (ev : event) : bool :=
  match ev with Redraw _ => true | _ => false end.

Definition is_raw_mode_enter `{PhaseType} (ev : event) : bool :=
  match ev with RawModeEnter => true | _ => false end.

Definition is_raw_mode_exit `{PhaseType} (ev : event) : bool :=
  match ev with RawModeExit => true | _ => false end.

Definition is_raw_mode `{PhaseType} (ev : event) : bool :=
  is_raw_mode_enter ev || is_raw_mode_exit ev.

(** The time slept in [evs], in milliseconds. *)
Fixpoint slept `{PhaseType} (evs : list event) : Z :=
  match evs with
  | [] => 0
  | Sleep ms :: evs' => ms + slept evs'
  | _ :: evs' => slept evs'
  end.

(** The events a tick of either loop can log. *)
Definition is_tick_event `{PhaseType} (ev : event) : bool :=
  match ev with
  | Update _ _ | GetRunningJobs _ _ _ | Redraw _ | ReadKeys _ | Sleep _
  | Suspend _ => true
  | _ => false
  end.

Definition not_redraw `{PhaseType} (ev : event) : bool := negb (is_redraw ev).

Definition not_raw_mode `{PhaseType} (ev : event) : bool := negb (is_raw_mode ev).

Definition is_read_keys `{PhaseType} (ev : event) : bool :=
  match ev with ReadKeys _ => true | _ => false end.

(** The samplings in [evs]. *)
Definition is_sampling `{PhaseType} (ev : event) : bool :=
  match ev with GetRunningJobs _ _ _ => true | _ => false end.

(** ** More of what a run should look like *)

Section ExpectedRuns.
Context `{C : Collaborators}.
Variable w : World.
Variable cfg : Config.
Variable wrap : Table -> renderable.
Variables tmp_prefix dst_prefix : string.

(** The number of whole ticks, from tick [i] and at most [fuel], before
    the first tick in which something raises or a quit key is read. *)
Fixpoint clean_prefix (fuel i : nat) : nat :=
  match fuel with
  | O => O
  | S fuel' =>
      if clean_render w i && quiet w i 10 then S (clean_prefix fuel' (S i))
      else O
  end.

(** The ways tick [i] of the polling backend can go, with the events it
    logs and how it ends: a whole tick; a quit key in slice [x]; an
    exception while the keys of slice [x] are read; an exception before
    the redraw was done. *)
Inductive tick_run (i : nat) (cached : list Job) : list event -> result unit -> Prop :=
| tick_whole :
    clean_render w i = true -> quiet w i 10 = true ->
    tick_run i cached
      (render_events w cfg wrap tmp_prefix dst_prefix i cached ++ wait_events w i 10)
      (Ok tt)
| tick_quit (x : nat) :
    clean_render w i = true -> (x < 10)%nat -> quiet w i x = true ->
    quit_slice w i x = true ->
    tick_run i cached
      (render_events w cfg wrap tmp_prefix dst_prefix i cached ++ wait_events w i x
       ++ [ReadKeys (keys_read w i x)])
      Return_
| tick_read_error (x : nat) (e : exn) :
    clean_render w i = true -> (x < 10)%nat -> quiet w i x = true ->
    fault w i (SReadKeys x) = Some e ->
    tick_run i cached
      (render_events w cfg wrap tmp_prefix dst_prefix i cached ++ wait_events w i x)
      (Raise e)
| tick_render_error (evs rest : list event) (e : exn) :
    clean_render w i = false ->
    tick_updates cfg wrap tmp_prefix dst_prefix i cached
      (running_jobs w i (logdir cfg) cached) = evs ++ rest ->
    tick_run i cached evs (Raise e).

(** How [with_rich] can go: it does not get to its loop; the bound on
    the ticks is reached after [n] whole ticks; or, after [n] whole
    ticks, tick [n] ends the loop. *)
Inductive rich_run : list event -> result unit -> Prop :=
| rich_not_started (evs : list event) (e : exn) :
    evs = [] \/ evs = [RawModeEnter; RawModeExit] ->
    rich_run evs (Raise e)
| rich_running (n : nat) :
    clean_ticks w n 0 = true ->
    rich_run
      ([RawModeEnter; LiveStart]
       ++ ticks_events w cfg wrap tmp_prefix dst_prefix n 0 [])
      Running
| rich_ended (n : nat) (evs : list event) (r : result unit) :
    clean_ticks w n 0 = true ->
    tick_run n (ticks_jobs w cfg n 0 []) evs r -> r <> Ok tt ->
    rich_run
      ([RawModeEnter; LiveStart]
       ++ ticks_events w cfg wrap tmp_prefix dst_prefix n 0 []
       ++ evs ++ [LiveStop; RawModeExit])
      (match r with Return_ => Ok tt | _ => r end).

End ExpectedRuns.

(** Every sampling in [evs] asks about [logdir] and is handed, as cached
    jobs, what the sampling before it returned ([cached] for the first). *)
Fixpoint samples_chained `{PhaseType} (logdir : string) (cached : list Job)
    (evs : list event) : Prop :=
  match evs with
  | [] => True
  | GetRunningJobs l c r :: evs' =>
      l = logdir /\ c = cached /\ samples_chained logdir r evs'
  | _ :: evs' => samples_chained logdir cached evs'
  end.

(** What the last sampling in [evs] returned ([cached] when there is none). *)
Fixpoint last_sample `{PhaseType} (cached : list Job) (evs : list event) : list Job :=
  match evs with
  | [] => cached
  | GetRunningJobs _ _ r :: evs' => last_sample r evs'
  | _ :: evs' => last_sample cached evs'
  end.

(** The headers of the frames redrawn in [evs], in order. *)
Fixpoint redraw_headers `{PhaseType} (evs : list event) : list renderable :=
  match evs with
  | [] => []
  | Redraw frame :: evs' => header_region frame :: redraw_headers evs'
  | _ :: evs' => redraw_headers evs'
  end.

(** The header of tick [i]. *)
Definition tick_header (i : nat) : renderable := RText (str (VInt (Z.of_nat i))).

(** [m] keeps [I]: from a state in [I] it ends in a state in [I]. *)
Definition preserves `{PhaseType} (I : State -> Prop) {A} (m : M A) : Prop :=
  forall s, I s -> I (fst (m s)).

(** The samplings so far are chained from [[]], and the local [jobs] is
    what the last of them returned. *)
Definition cache_inv `{PhaseType} (logdir : string) (s : State) : Prop :=
  samples_chained logdir [] (trace s) /\ last_sample [] (trace s) = jobs s.

(** The events of the polling backend: it sleeps in slices of 100 ms,
    never suspends and has no task group. *)
Definition is_polling_event `{PhaseType} (ev : event) : bool :=
  match ev with
  | RawModeEnter | RawModeExit | LiveStart | LiveStop => true
  | Update _ _ | GetRunningJobs _ _ _ | Redraw _ | ReadKeys _ => true
  | Sleep ms => ms =? 100
  | _ => false
  end.

(** The events of the cooperative backend: it suspends for 1000 ms,
    never sleeps, reads no keys and does not touch raw mode. *)
Definition is_cooperative_event `{PhaseType} (ev : event) : bool :=
  match ev with
  | TaskGroupEnter | TaskGroupExit | AddKeyBinding _ | StartSoon => true
  | Update _ _ | GetRunningJobs _ _ _ | Redraw _ => true
  | Suspend ms => ms =? 1000
  | _ => false
  end.

Definition is_live `{PhaseType} (ev : event) : bool :=
  match ev with LiveStart | LiveStop => true | _ => false end.

Definition inside_live `{PhaseType} (ev : event) : bool :=
  negb (is_raw_mode ev) && negb (is_live ev).

(** ** A concrete setting for the examples

    The collaborators are not part of [monitor.py]; the examples below
    run the dashboard against simple stand-ins for them. *)

(** Modelled from the spec: [plotman.job.Phase], "an ordinal progress
    marker within a job's lifecycle", written [(1,2)] in the scenarios: a
    pair (major, minor), ordered lexicographically. *)
Definition pair_ltb (a b : Z * Z) : bool :=
  (fst a <? fst b) || ((fst a =? fst b) && (snd a <? snd b)).

#[export] Instance pair_phase : PhaseType :=
  {| Phase := Z * Z; phase_ltb := pair_ltb |}.

Fixpoint is_prefix (p s : string) : bool :=
  match p, s with
  | EmptyString, _ => true
  | String a p', String b s' => Ascii.eqb a b && is_prefix p' s'
  | String _ _, EmptyString => false
  end.

Definition drop_slash (s : string) : string :=
  match s with
  | String "/" s' => s'
  | _ => s
  end.

(** Modelled from the spec: [plotman.reporting.abbr_path],
    "abbreviatePath(path, prefix) -> string", paths "relative to the
    longest common prefix": a path under the prefix loses it. *)
Definition ex_abbr_path (path prefix : string) : string :=
  if is_prefix prefix path && negb (String.eqb prefix "")
  then match drop_slash (substring (String.length prefix)
                           (String.length path - String.length prefix) path) with
       | EmptyString => "."
       | rest => rest
       end
  else path.

Definition str_Z (z : Z) : string := str (VInt z).

(** Modelled from the spec: [plotman.reporting.phase_str], "current
    phase as a short string": major and minor joined by a colon. *)
Definition ex_phase_str (ph : Z * Z) : string :=
  (str_Z (fst ph) ++ ":" ++ str_Z (snd ph))%string.

(** Modelled from the spec: [plotman.reporting.phases_str],
    "formatPhaseList(phases, maxCount) -> string": the first [maxCount]
    phases, separated by blanks. *)
Definition ex_phases_str (phs : list (Z * Z)) (max_num : Z) : string :=
  String.concat " " (map ex_phase_str (firstn (Z.to_nat max_num) phs)).

(** Modelled from the spec: [plotman.job.job_phases_for_tmpdir], "the
    phases of all jobs whose temp directory equals it": the phase of each
    such job, in the order of the jobs. *)
Definition ex_job_phases_for_tmpdir (d : string) (all_jobs : list Job)
    : list (Z * Z) :=
  map progress (filter (fun j => String.eqb (tmpdir j) d) all_jobs).

(** [os.path.commonpath] on absolute POSIX paths: the longest common
    leading run of components; it raises on an empty list. *)
Fixpoint split_slash (acc s : string) : list string :=
  match s with
  | EmptyString => [acc]
  | String "/" s' => acc :: split_slash "" s'
  | String c s' => split_slash (acc ++ String c "")%string s'
  end.

Fixpoint common_prefix (a b : list string) : list string :=
  match a, b with
  | x :: a', y :: b' => if String.eqb x y then x :: common_prefix a' b' else []
  | _, _ => []
  end.

Definition ex_commonpath (paths : list string) : option string :=
  match map (split_slash "") paths with
  | [] => None
  | p :: ps =>
      match String.concat "/" (fold_left common_prefix ps p) with
      | EmptyString => Some "/"
      | common => Some common
      end
  end.

(** Modelled from the spec: the remaining collaborators.  Durations are
    written in seconds ("5s"), sizes as plain numbers, and the scheduling
    policy is the scenario's "policy stub returning true". *)
#[export] Instance ex_collaborators : Collaborators :=
  {| Scheduling := unit;
     abbr_path := ex_abbr_path;
     time_format := fun t => (str_Z t ++ "s")%string;
     human_format := fun v _ => str_Z v;
     phase_str := ex_phase_str;
     phases_str := ex_phases_str;
     job_phases_for_tmpdir := ex_job_phases_for_tmpdir;
     phases_permit_new_job := fun _ _ _ _ => true;
     commonpath := ex_commonpath |}.

(** A policy that admits a new job only on the directory it knows as
    [a]: it tells which string [from_tmp] hands to the policy. *)
Definition ex_collaborators_named : Collaborators :=
  {| Scheduling := unit;
     abbr_path := ex_abbr_path;
     time_format := fun t => (str_Z t ++ "s")%string;
     human_format := fun v _ => str_Z v;
     phase_str := ex_phase_str;
     phases_str := ex_phases_str;
     job_phases_for_tmpdir := ex_job_phases_for_tmpdir;
     phases_permit_new_job := fun _ d _ _ => String.eqb d "a";
     commonpath := ex_commonpath |}.

Definition ex_job (id : string) (tmp : string) (wall : Z) (ph : Z * Z) : Job :=
  {| job_plot_id := id; job_k := 32; tmpdir := tmp; dstdir := "/dst/x";
     get_time_wall := wall; progress := ph; get_tmp_usage := 1000;
     proc_pid := 4242; get_run_status := "RUN"; get_mem_usage := 2000;
     get_time_user := 3; get_time_sys := 2; get_time_iowait := 1 |}.

Definition ex_dirs : Directories.t :=
  Directories.mk ["/mnt/b"; "/mnt/a"] ["/dst/x"; "/dst/y"] "/var/log/plotman".

Definition ex_cfg : Config := {| directories := ex_dirs; scheduling := tt |}.

Definition ex_cfg_named : @Config pair_phase ex_collaborators_named :=
  @Build_Config pair_phase ex_collaborators_named ex_dirs tt.

(** The scenario of the spec: wall times 10s and 5s. *)
Definition ex_jobs : list Job :=
  [ ex_job "0123456789abcdef" "/mnt/a" 10 (1, 2);
    ex_job "fedcba9876543210" "/mnt/b" 5 (2, 1) ].

(** Three jobs, the first and the last tied on wall time. *)
Definition ex_jobs_tied : list Job :=
  [ ex_job "aaaa" "/mnt/a" 7 (1, 2);
    ex_job "bbbb" "/mnt/b" 5 (2, 1);
    ex_job "cccc" "/mnt/a" 7 (3, 4) ].


Definition ex_key (c : string) : KeyPress := {| kp_key := KeyStr c; kp_data := c |}.

(** A world in which [q] is typed during slice 3 of the wait of tick 2
    (and an [x] before it), and nothing fails. *)
Definition ex_world_quit : World :=
  {| running_jobs := fun i _ cached => match i with O => ex_jobs | _ => cached end;
     keys_read := fun i slice =>
       if Nat.eqb i 2 && Nat.eqb slice 3 then [ex_key "q"]
       else if Nat.eqb i 1 && Nat.eqb slice 0 then [ex_key "x"]
       else [];
     fault := fun _ _ => None;
     raw_mode_fault := None;
     live_fault := None;
     cancelled := fun i => Nat.leb 2 i |}.

(** A world in which Control-C arrives in the very first slice. *)
Definition ex_world_ctrl_c : World :=
  {| running_jobs := fun _ _ _ => ex_jobs;
     keys_read := fun _ _ => [ {| kp_key := KeysControlC; kp_data := "" |} ];
     fault := fun _ _ => None;
     raw_mode_fault := None;
     live_fault := None;
     cancelled := fun _ => true |}.

(** A world in which job discovery raises in tick 1 and no key is ever
    typed. *)
Definition ex_world_fault : World :=
  {| running_jobs := fun _ _ _ => ex_jobs;
     keys_read := fun _ _ => [];
     fault := fun i st =>
       match i, st with
       | 1%nat, SGetRunningJobs => Some (Exception "OSError")
       | _, _ => None
       end;
     raw_mode_fault := None;
     live_fault := None;
     cancelled := fun _ => false |}.

(** A world without keys, faults or cancellation. *)
Definition ex_world_idle : World :=
  {| running_jobs := fun _ _ _ => ex_jobs;
     keys_read := fun _ _ => [];
     fault := fun _ _ => None;
     raw_mode_fault := None;
     live_fault := None;
     cancelled := fun _ => false |}.

(** A world in which the live display cannot be started. *)
Definition ex_world_no_live : World :=
  {| running_jobs := fun _ _ _ => ex_jobs;
     keys_read := fun _ _ => [];
     fault := fun _ _ => None;
     raw_mode_fault := None;
     live_fault := Some (Exception "LiveError");
     cancelled := fun _ => false |}.

(** ** The phases a formatted phase list shows *)

(** [l1] is [l2] with some elements left out. *)
Inductive subseq {A : Type} : list A -> list A -> Prop :=
| subseq_nil : subseq [] []
| subseq_skip (x : A) (l1 l2 : list A) : subseq l1 l2 -> subseq l1 (x :: l2)
| subseq_keep (x : A) (l1 l2 : list A) : subseq l1 l2 -> subseq (x :: l1) (x :: l2).







(** A policy that looks at the phases: a new job may start on a
    directory once every job on it is past phase 1. *)
Definition ex_collaborators_staggered : Collaborators :=
  {| Scheduling := unit;
     abbr_path := ex_abbr_path;
     time_format := fun t => (str_Z t ++ "s")%string;
     human_format := fun v _ => str_Z v;
     phase_str := ex_phase_str;
     phases_str := ex_phases_str;
     job_phases_for_tmpdir := ex_job_phases_for_tmpdir;
     phases_permit_new_job :=
       fun phs _ _ _ => forallb (fun ph => negb (pair_ltb ph (2, 1))) phs;
     commonpath := ex_commonpath |}.

(** ** What is painted when the display is closed *)

Definition is_live_stop `{PhaseType} (ev : event) : bool :=
  match ev with LiveStop => true | _ => false end.

Definition is_task_group_exit `{PhaseType} (ev : event) : bool :=
  match ev with TaskGroupExit => true | _ => false end.

(** Besides the redraws the loops ask for, the display libraries paint
    once more when the display is closed: [rich.live.Live.__exit__] calls
    [stop], which refreshes, and [prompt_toolkit] redraws when the
    application ends.  The frame painted then is the screen model as the
    loop left it. *)
Definition closing_frame `{PhaseType} (closed : event -> bool)
    (run : State * result unit) : option Screen :=
  if existsb closed (trace (fst run)) then Some (screen (fst run)) else None.

(** [frame] is the frame of one tick: its header, and the two tables of
    the one sample of that tick. *)
Definition of_one_tick `{C : Collaborators} (w : World) (cfg : Config)
    (wrap : Table -> renderable) (tmp_prefix dst_prefix : string)
    (frame : Screen) : Prop :=
  exists i cached,
    frame = tick_frame cfg wrap tmp_prefix dst_prefix i
              (running_jobs w i (logdir cfg) cached).

(** A world in which the jobs have gone after tick 0 and job discovery
    raises in tick 1. *)
Definition ex_world_fault_late : World :=
  {| running_jobs := fun i _ _ => match i with O => ex_jobs | _ => [] end;
     keys_read := fun _ _ => [];
     fault := fun i st =>
       match i, st with
       | 1%nat, SGetRunningJobs => Some (Exception "OSError")
       | _, _ => None
       end;
     raw_mode_fault := None;
     live_fault := None;
     cancelled := fun _ => false |}.

(** * Properties *)

(** ** [sorted] *)

Section PySortedFacts.
Context {A K : Type}.
Variable ltb : K -> K -> bool.
Variable key : A -> K.
Hypothesis ltb_asym : forall a b, ltb a b = true -> ltb b a = false.

Lemma insert_Permutation x l : Permutation (insert ltb key x l) (x :: l).
Proof.
  induction l as [|y l IH]; simpl; [reflexivity|].
  destruct (ltb (key y) (key x)); [|reflexivity].
  rewrite IH. apply perm_swap.
Qed.

Lemma sorted_Permutation l : Permutation (sorted ltb key l) l.
Proof.
  induction l as [|x l IH]; simpl; [constructor|].
  rewrite insert_Permutation. now constructor.
Qed.

Lemma sorted_length l : List.length (sorted ltb key l) = List.length l.
Proof. apply Permutation_length, sorted_Permutation. Qed.

Lemma insert_HdRel a x l :
  key_le ltb key a x -> HdRel (key_le ltb key) a l ->
  HdRel (key_le ltb key) a (insert ltb key x l).
Proof.
  intros Hax Hal. destruct l as [|y l]; simpl.
  - now constructor.
  - destruct (ltb (key y) (key x)); constructor; auto.
    now inversion Hal.
Qed.

Lemma insert_Sorted x l :
  Sorted (key_le ltb key) l -> Sorted (key_le ltb key) (insert ltb key x l).
Proof.
  induction 1 as [|y l Hs IH Hd]; simpl.
  - repeat constructor.
  - destruct (ltb (key y) (key x)) eqn:E.
    + constructor; [exact IH|].
      apply insert_HdRel; [|exact Hd].
      unfold key_le. now apply ltb_asym.
    + constructor; [now constructor|]. constructor. exact E.
Qed.

Lemma sorted_Sorted l : Sorted (key_le ltb key) (sorted ltb key l).
Proof.
  induction l as [|x l IH]; simpl; [constructor|].
  now apply insert_Sorted.
Qed.

(** Stability: within any class [p] of elements none of which is smaller
    than another, the order of the input is kept. *)
Section Stable.
Variable p : A -> bool.
Hypothesis p_tied :
  forall x y, p x = true -> p y = true -> ltb (key x) (key y) = false.

Lemma filter_insert x l :
  filter p (insert ltb key x l) = filter p (x :: l).
Proof.
  induction l as [|y l IH]; [reflexivity|].
  simpl insert. destruct (ltb (key y) (key x)) eqn:E; [|reflexivity].
  simpl in *. destruct (p x) eqn:Px, (p y) eqn:Py; rewrite ?IH; auto.
  rewrite (p_tied y x Py Px) in E. discriminate.
Qed.

Lemma filter_sorted l : filter p (sorted ltb key l) = filter p l.
Proof.
  induction l as [|x l IH]; [reflexivity|].
  simpl sorted. rewrite filter_insert. simpl. now rewrite IH.
Qed.
End Stable.
End PySortedFacts.

Lemma Sorted_weaken {A} (R R' : A -> A -> Prop) l :
  (forall a b, R a b -> R' a b) -> Sorted R l -> Sorted R' l.
Proof.
  intros HR. induction 1 as [|a l Hs IH Hd]; constructor; auto.
  destruct Hd; constructor; auto.
Qed.


Lemma Sorted_map {A B} (f : A -> B) (R : B -> B -> Prop) l :
  Sorted (fun a b => R (f a) (f b)) l -> Sorted R (map f l).
Proof.
  induction 1 as [|a l Hs IH Hd]; simpl; constructor; auto.
  destruct Hd; simpl; constructor; auto.
Qed.

Lemma string_ltb_asym a b : String.ltb a b = true -> String.ltb b a = false.
Proof.
  unfold String.ltb. rewrite (String.compare_antisym b a).
  destruct (String.compare a b); simpl; congruence.
Qed.

Lemma string_ltb_leb a b : String.ltb b a = false -> String.leb a b = true.
Proof.
  unfold String.ltb, String.leb. rewrite (String.compare_antisym b a).
  destruct (String.compare a b); simpl; congruence.
Qed.

Lemma Z_ltb_asym a b : (a <? b) = true -> (b <? a) = false.
Proof. lia. Qed.

(** *** Any stable sort is [sorted]

    What the insertion sort returns is fixed by being ascending and
    stable (for integer keys) or by being an ascending rearrangement
    (for strings): whatever algorithm Python runs, it returns this list. *)

Lemma filter_key_nil {A} (key : A -> Z) (l : list A) :
  (forall t, filter (fun x => key x =? t) l = []) -> l = [].
Proof.
  destruct l as [|y l]; [reflexivity|]. intros Hf.
  specialize (Hf (key y)). simpl in Hf. rewrite Z.eqb_refl in Hf. discriminate.
Qed.

Lemma Sorted_map_head_le {A} (key : A -> Z) (y x : A) (l : list A) :
  Sorted Z.le (map key (y :: l)) -> In x l -> key y <= key x.
Proof.
  intros Hs Hin. simpl in Hs.
  apply Sorted_extends in Hs; [|intros a b c; apply Z.le_trans].
  rewrite Forall_forall in Hs. apply Hs. now apply in_map.
Qed.

Lemma stable_sort_unique {A} (key : A -> Z) (l1 l2 : list A) :
  Sorted Z.le (map key l1) -> Sorted Z.le (map key l2) ->
  (forall t, filter (fun x => key x =? t) l1 = filter (fun x => key x =? t) l2) ->
  l1 = l2.
Proof.
  revert l2. induction l1 as [|x l1 IH]; intros l2 S1 S2 Hf.
  - symmetry. apply (filter_key_nil key). intros t. now rewrite <- Hf.
  - destruct l2 as [|y l2].
    + specialize (Hf (key x)). simpl in Hf. rewrite Z.eqb_refl in Hf. discriminate.
    + assert (Hxy : key x = key y).
      { destruct (Z.eq_dec (key x) (key y)) as [E|N]; [exact E|exfalso].
        assert (Hx : In x l2).
        { pose proof (Hf (key x)) as Hk. simpl in Hk. rewrite Z.eqb_refl in Hk.
          destruct (key y =? key x) eqn:Ey; [lia|].
          assert (Hin : In x (filter (fun x0 => key x0 =? key x) l2))
            by (rewrite <- Hk; now left).
          now apply filter_In in Hin. }
        assert (Hy : In y l1).
        { pose proof (Hf (key y)) as Hk. simpl in Hk. rewrite Z.eqb_refl in Hk.
          destruct (key x =? key y) eqn:Ex; [lia|].
          assert (Hin : In y (filter (fun x0 => key x0 =? key y) l1))
            by (rewrite Hk; now left).
          now apply filter_In in Hin. }
        pose proof (Sorted_map_head_le key y x l2 S2 Hx).
        pose proof (Sorted_map_head_le key x y l1 S1 Hy). lia. }
      assert (Ex : x = y).
      { pose proof (Hf (key x)) as Hk. simpl in Hk. rewrite <- Hxy in Hk.
        rewrite Z.eqb_refl in Hk. now injection Hk. }
      subst y. f_equal. apply IH.
      * simpl in S1. now inversion S1.
      * simpl in S2. now inversion S2.
      * intros t. specialize (Hf t). simpl in Hf.
        destruct (key x =? t); [now injection Hf|exact Hf].
Qed.

Lemma string_leb_trans a b c :
  String.leb a b = true -> String.leb b c = true -> String.leb a c = true.
Proof.
  assert (Hle : forall x y, String.leb x y = true <-> x = y \/ String_as_OT.lt x y).
  { intros x y. unfold String.leb. split.
    - destruct (String.compare x y) eqn:E; try discriminate; intros _.
      + left. now apply String.compare_eq_iff.
      + right. now apply String_as_OT.cmp_lt.
    - intros [->|Hlt].
      + replace (String.compare y y) with Eq; [reflexivity|].
        symmetry. now apply String_as_OT.cmp_eq.
      + apply String_as_OT.cmp_lt in Hlt. unfold String_as_OT.cmp in Hlt.
        now rewrite Hlt. }
  rewrite !Hle. intros [->|H1] [->|H2]; auto.
  right. eapply String_as_OT.lt_trans; eassumption.
Qed.

Lemma ascending_permutation_unique (l1 l2 : list string) :
  Sorted (fun a b => String.leb a b = true) l1 ->
  Sorted (fun a b => String.leb a b = true) l2 ->
  Permutation l1 l2 -> l1 = l2.
Proof.
  revert l2. induction l1 as [|x l1 IH]; intros l2 S1 S2 Hp.
  - now apply Permutation_nil in Hp.
  - destruct l2 as [|y l2]; [now apply Permutation_sym, Permutation_nil in Hp|].
    assert (Hxy : x = y).
    { assert (Hx : In x (y :: l2)) by (eapply Permutation_in; [exact Hp|now left]).
      assert (Hy : In y (x :: l1))
        by (eapply Permutation_in; [apply Permutation_sym; exact Hp|now left]).
      pose proof (Sorted_extends string_leb_trans S1) as F1.
      pose proof (Sorted_extends string_leb_trans S2) as F2.
      rewrite Forall_forall in F1, F2.
      destruct Hx as [->|Hx]; [reflexivity|]. destruct Hy as [->|Hy]; [reflexivity|].
      apply String.leb_antisym; auto. }
    subst y. f_equal. apply IH.
    + now inversion S1.
    + now inversion S2.
    + eapply Permutation_cons_inv; exact Hp.
Qed.

Lemma map_snd_enumerate_from {A} (l : list A) n :
  map snd (enumerate_from n l) = l.
Proof.
  revert n. induction l as [|x l IH]; intros n; simpl; [reflexivity|].
  now rewrite IH.
Qed.

(** ** The view-model builders *)

Section ViewModelFacts.
Context `{C : Collaborators}.

Lemma build_jobs_data_map jobs dp tp :
  build_jobs_data jobs dp tp =
  map (fun job => from_job job dp tp) (sorted Z.ltb get_time_wall jobs).
Proof.
  unfold build_jobs_data, enumerate.
  rewrite <- (map_snd_enumerate_from (sorted Z.ltb get_time_wall jobs) 0) at 2.
  now rewrite map_map.
Qed.

(** C1. [build_jobs_data] returns one row per job: the rows are
    [from_job] of the jobs rearranged so that the wall-clock times are
    non-decreasing, and the jobs of any one wall-clock time stand in the
    order they have in the input.  There is only one such arrangement. *)
Theorem build_jobs_data_sorted_stable (jobs : list Job) (dst_prefix tmp_prefix : string) :
  List.length (build_jobs_data jobs dst_prefix tmp_prefix) = List.length jobs /\
  exists sorted_jobs,
    build_jobs_data jobs dst_prefix tmp_prefix =
      map (fun job => from_job job dst_prefix tmp_prefix) sorted_jobs /\
    Permutation sorted_jobs jobs /\
    Sorted Z.le (map get_time_wall sorted_jobs) /\
    (forall t, filter (fun job => get_time_wall job =? t) sorted_jobs =
               filter (fun job => get_time_wall job =? t) jobs) /\
    (forall js,
       Sorted Z.le (map get_time_wall js) ->
       (forall t, filter (fun job => get_time_wall job =? t) js =
                  filter (fun job => get_time_wall job =? t) jobs) ->
       js = sorted_jobs).
Proof.
  rewrite build_jobs_data_map, length_map, sorted_length.
  split; [reflexivity|].
  exists (sorted Z.ltb get_time_wall jobs).
  assert (Hs : Sorted Z.le (map get_time_wall (sorted Z.ltb get_time_wall jobs))).
  { apply Sorted_map.
    apply Sorted_weaken with (R := key_le Z.ltb get_time_wall).
    - unfold key_le. intros a b. lia.
    - apply sorted_Sorted, Z_ltb_asym. }
  assert (Hf : forall t,
            filter (fun job => get_time_wall job =? t) (sorted Z.ltb get_time_wall jobs) =
            filter (fun job => get_time_wall job =? t) jobs).
  { intros t. apply filter_sorted. intros x y Hx Hy. lia. }
  split; [reflexivity|]. split; [apply sorted_Permutation|].
  split; [exact Hs|]. split; [exact Hf|].
  intros js Hjs Hst. apply (stable_sort_unique get_time_wall); auto.
  intros t. now rewrite Hst, Hf.
Qed.

(** C2. [build_tmp_data] returns one row per configured tmp directory:
    the rows are [from_tmp] of the configured directories rearranged in
    ascending order of their paths (the one such arrangement), and each
    row carries the abbreviation of its directory. *)
Theorem build_tmp_data_one_row_per_tmp (jobs : list Job) (dir_cfg : Directories.t)
    (sched_cfg : Scheduling) (prefix : string) :
  List.length (build_tmp_data jobs dir_cfg sched_cfg prefix) =
    List.length (Directories.tmp dir_cfg) /\
  exists tmps,
    Permutation tmps (Directories.tmp dir_cfg) /\
    Sorted (fun a b => String.leb a b = true) tmps /\
    build_tmp_data jobs dir_cfg sched_cfg prefix =
      map (fun tmp => from_tmp dir_cfg jobs sched_cfg tmp prefix) tmps /\
    map path (build_tmp_data jobs dir_cfg sched_cfg prefix) =
      map (fun tmp => VStr (abbr_path tmp prefix)) tmps /\
    (forall ds,
       Permutation ds (Directories.tmp dir_cfg) ->
       Sorted (fun a b => String.leb a b = true) ds -> ds = tmps).
Proof.
  unfold build_tmp_data. rewrite length_map, sorted_length.
  split; [reflexivity|].
  exists (sorted String.ltb (fun tmp => tmp) (Directories.tmp dir_cfg)).
  assert (Hs : Sorted (fun a b => String.leb a b = true)
                 (sorted String.ltb (fun tmp => tmp) (Directories.tmp dir_cfg))).
  { apply Sorted_weaken with (R := key_le String.ltb (fun tmp => tmp)).
    - unfold key_le. intros a b. apply string_ltb_leb.
    - apply sorted_Sorted, string_ltb_asym. }
  split; [apply sorted_Permutation|]. split; [exact Hs|].
  split; [reflexivity|]. split; [rewrite map_map; reflexivity|].
  intros ds Hp Hds. apply ascending_permutation_unique; auto.
  rewrite Hp. symmetry. apply sorted_Permutation.
Qed.

(** C10. Every attribute of a constructed [JobRow] or [TmpRow] is a
    string, whatever was passed for it: [k] and [pid] are the decimal
    strings of the numbers, [phases] is the formatted phase list, and
    [ready] is [OK] or [--]. *)
Theorem row_attributes_are_str :
  (forall v1 v2 v3 v4 v5 v6 v7 v8 v9 v10 v11 v12 v13,
     forallb is_str
       (JobRow_astuple (JobRow_cls v1 v2 v3 v4 v5 v6 v7 v8 v9 v10 v11 v12 v13)) = true) /\
  (forall v1 v2 v3, forallb is_str (TmpRow_astuple (TmpRow_cls v1 v2 v3)) = true) /\
  (forall job dp tp,
     forallb is_str (JobRow_astuple (from_job job dp tp)) = true /\
     k (from_job job dp tp) = VStr (str (VInt (job_k job))) /\
     pid (from_job job dp tp) = VStr (str (VInt (proc_pid job)))) /\
  (forall dir_cfg jobs sched_cfg tmp prefix,
     forallb is_str (TmpRow_astuple (from_tmp dir_cfg jobs sched_cfg tmp prefix)) = true /\
     phases (from_tmp dir_cfg jobs sched_cfg tmp prefix) =
       VStr (phases_str (from_tmp_phases jobs tmp) 5) /\
     (ready (from_tmp dir_cfg jobs sched_cfg tmp prefix) = VStr "OK" \/
      ready (from_tmp dir_cfg jobs sched_cfg tmp prefix) = VStr "--")).
Proof.
  repeat split; try reflexivity.
  simpl. destruct (phases_permit_new_job _ _ _ _); auto.
Qed.

End ViewModelFacts.

(** ** The loops: what a statement appends to the trace *)

Section EmitFacts.
Context `{PT : PhaseType}.

Lemma log_event_events (ev : event) s : log_event ev s = log_events [ev] s.
Proof. reflexivity. Qed.

Lemma log_events_app (a b : list event) s :
  log_events b (log_events a s) = log_events (a ++ b) s.
Proof. unfold log_events. simpl. now rewrite app_assoc. Qed.

Lemma log_events_nil (s : State) : log_events [] s = s.
Proof. destruct s. unfold log_events. simpl. now rewrite app_nil_r. Qed.

Lemma all_events_closed (P : event -> bool) : closed_under_app (all_events P).
Proof.
  split; [reflexivity|]. unfold all_events. intros a b Ha Hb.
  rewrite forallb_app, Ha, Hb. reflexivity.
Qed.

Section Closed.
Variable Q : list event -> Prop.
Hypothesis Q_closed : closed_under_app Q.

Lemma emits_ret {A} (a : A) : emits Q (ret a).
Proof. intros s. exists []. simpl. rewrite app_nil_r. split; [reflexivity|apply Q_closed]. Qed.

Lemma emits_raise {A} (e : exn) : emits Q (@raise _ A e).
Proof. intros s. exists []. simpl. rewrite app_nil_r. split; [reflexivity|apply Q_closed]. Qed.

Lemma emits_return {A} : emits Q (@return_ _ A).
Proof. intros s. exists []. simpl. rewrite app_nil_r. split; [reflexivity|apply Q_closed]. Qed.

Lemma emits_call {A} (flt : option exn) (a : A) : emits Q (call flt a).
Proof. destruct flt; [apply emits_raise|apply emits_ret]. Qed.

Lemma emits_emit (ev : event) : Q [ev] -> emits Q (emit ev).
Proof. intros H s. exists [ev]. simpl. auto. Qed.

Lemma emits_bind {A B} (m : M A) (f : A -> M B) :
  emits Q m -> (forall a, emits Q (f a)) -> emits Q (bind m f).
Proof.
  intros Hm Hf s. unfold bind.
  destruct (Hm s) as (e1 & H1 & Q1).
  destruct (m s) as [s1 [a| | | |]]; simpl in *; try (exists e1; now split).
  destruct (Hf a s1) as (e2 & H2 & Q2).
  exists (e1 ++ e2). rewrite H2, H1, app_assoc. split; [reflexivity|].
  now apply Q_closed.
Qed.

Lemma emits_for_each {A} (l : list A) (body : A -> M unit) :
  (forall x, emits Q (body x)) -> emits Q (for_each l body).
Proof.
  intros Hb. induction l as [|x l IH]; simpl.
  - apply emits_ret.
  - apply emits_bind; auto.
Qed.

Lemma emits_for_count (fuel i : nat) (body : nat -> M unit) :
  (forall j, emits Q (body j)) -> emits Q (for_count fuel i body).
Proof.
  intros Hb. revert i. induction fuel as [|fuel IH]; intros i; simpl.
  - intros s. exists []. simpl. rewrite app_nil_r. split; [reflexivity|apply Q_closed].
  - apply emits_bind; auto.
Qed.

Lemma emits_with {A} flt (enter exit : event) (body : M A) :
  Q [enter] -> Q [exit] -> emits Q body -> emits Q (with_ flt enter exit body).
Proof.
  intros Qe Qx Hb s. unfold with_. destruct flt as [e|].
  - exists []. simpl. rewrite app_nil_r. split; [reflexivity|apply Q_closed].
  - destruct (Hb (log_event enter s)) as (evs & Ht & Qevs).
    destruct (body (log_event enter s)) as [s' r]. simpl in Ht.
    assert (Qin : Q ([enter] ++ evs)) by now apply Q_closed.
    destruct r; simpl; rewrite Ht, <- ?app_assoc;
      try (exists (([enter] ++ evs) ++ [exit]); rewrite <- !app_assoc;
           split; [reflexivity|rewrite app_assoc; now apply Q_closed]).
    exists ([enter] ++ evs). now split.
Qed.

Lemma emits_task_group {A} (body : M A) :
  Q [TaskGroupEnter] -> Q [TaskGroupExit] -> emits Q body ->
  emits Q (task_group body).
Proof.
  intros Qe Qx Hb s. unfold task_group.
  destruct (Hb (log_event TaskGroupEnter s)) as (evs & Ht & Qevs).
  destruct (body (log_event TaskGroupEnter s)) as [s' r]. simpl in Ht.
  assert (Qin : Q ([TaskGroupEnter] ++ evs)) by now apply Q_closed.
  destruct r; simpl; rewrite Ht, <- ?app_assoc;
    try (exists (([TaskGroupEnter] ++ evs) ++ [TaskGroupExit]); rewrite <- !app_assoc;
         split; [reflexivity|rewrite app_assoc; now apply Q_closed]).
  exists ([TaskGroupEnter] ++ evs). now split.
Qed.

Lemma emits_def {A} (body : M A) : emits Q body -> emits Q (def body).
Proof.
  intros Hb s. unfold def. destruct (Hb s) as (evs & Ht & Qevs).
  destruct (body s) as [s' [a| | | |]]; simpl in *; exists evs; now split.
Qed.

End Closed.
End EmitFacts.

(** ** The loops: redraws and the writes before them *)

Section RedrawFacts.
Context `{C : Collaborators}.
Variable w : World.
Variable cfg : Config.
Variable wrap : Table -> renderable.
Variables tmp_prefix dst_prefix : string.

Local Notation "'follow'" := (redraws_follow_updates w cfg wrap tmp_prefix dst_prefix).

Lemma no_redraw_follow evs : all_events not_redraw evs -> follow evs.
Proof.
  intros Hall pre frame post ->. unfold all_events in Hall.
  rewrite forallb_app in Hall. simpl in Hall.
  rewrite andb_false_r in Hall. discriminate.
Qed.

Lemma redraws_follow_updates_closed : closed_under_app follow.
Proof.
  split.
  - intros pre frame post Hnil. now destruct pre.
  - intros a b Qa Qb pre frame post Heq.
    apply app_eq_app in Heq. destruct Heq as [l [[Ha Hb]|[Ha Hb]]].
    + destruct l as [|x l].
      * simpl in Hb. destruct (Qb [] frame post (eq_sym Hb)) as (pre' & i & cached & Hp & _).
        destruct pre'; discriminate.
      * simpl in Hb. injection Hb as <- ->.
        destruct (Qa pre frame l Ha) as (pre' & i & cached & Hp & Hf).
        exists pre', i, cached. now split.
    + destruct (Qb l frame post Hb) as (pre' & i & cached & Hp & Hf).
      exists (a ++ pre'), i, cached. simpl in *. subst. split; [|reflexivity].
      now rewrite <- app_assoc.
Qed.

Lemma redraw_split_unique (A W pre post : list event) f0 f :
  all_events not_redraw A -> all_events not_redraw W ->
  A ++ Redraw f0 :: W = pre ++ Redraw f :: post -> pre = A /\ f = f0.
Proof.
  unfold all_events. intros HA HW. revert pre.
  induction A as [|a A IH]; intros pre Heq; simpl in *.
  - destruct pre as [|x pre]; simpl in Heq.
    + injection Heq as <- _. now split.
    + injection Heq as _ ->. rewrite forallb_app in HW. simpl in HW.
      rewrite andb_false_r in HW. discriminate.
  - apply andb_true_iff in HA. destruct HA as [Ha HA].
    destruct pre as [|x pre]; simpl in Heq.
    + injection Heq as -> _. discriminate.
    + injection Heq as <- Heq. destruct (IH HA pre Heq) as [-> ->]. now split.
Qed.

Lemma tick_follows (i : nat) (cached : list Job) (rest : list event) :
  all_events not_redraw rest ->
  follow (render_events w cfg wrap tmp_prefix dst_prefix i cached ++ rest).
Proof.
  intros Hrest pre frame post Heq. unfold render_events in Heq.
  rewrite <- app_assoc in Heq. simpl app at 2 in Heq.
  apply redraw_split_unique in Heq; [|reflexivity|exact Hrest].
  destruct Heq as [-> ->]. exists [], i, cached. now split.
Qed.

End RedrawFacts.

(** ** The loops: statement by statement *)

Section LoopFacts.
Context `{C : Collaborators}.
Variable w : World.
Variable cfg : Config.

Section TickEvents.
Variable P : event -> bool.
Hypothesis P_tick : forall ev, is_tick_event ev = true -> P ev = true.

Lemma emits_update r x : emits (all_events P) (update r x).
Proof.
  intros s. exists [Update r x]. split; [reflexivity|].
  unfold all_events. simpl. now rewrite P_tick.
Qed.

Lemma emits_get_running_jobs i : emits (all_events P) (get_running_jobs w cfg i).
Proof.
  intros s. unfold get_running_jobs. destruct (fault w i SGetRunningJobs).
  - exists []. simpl. now rewrite app_nil_r.
  - eexists [_]. split; [reflexivity|].
    unfold all_events. simpl. now rewrite P_tick.
Qed.

Lemma emits_redraw i : emits (all_events P) (redraw w i).
Proof.
  intros s. unfold redraw. destruct (fault w i SRedraw).
  - exists []. simpl. now rewrite app_nil_r.
  - eexists [_]. split; [reflexivity|].
    unfold all_events. simpl. now rewrite P_tick.
Qed.

End TickEvents.

Section SleepEvents.
Variable P : event -> bool.
Hypothesis P_suspend : forall ms, P (Suspend ms) = true.

Lemma emits_anyio_sleep i ms : emits (all_events P) (anyio_sleep w i ms).
Proof.
  apply emits_bind; [apply all_events_closed| |].
  - apply emits_emit. unfold all_events. simpl. now rewrite P_suspend.
  - intros _. destruct (cancelled w i); [|apply emits_ret, all_events_closed].
    intros s. exists []. simpl. now rewrite app_nil_r.
Qed.
End SleepEvents.

Section WaitEvents.
Variable P : event -> bool.
Hypothesis P_read_keys : forall ks, P (ReadKeys ks) = true.
Hypothesis P_sleep : forall ms, P (Sleep ms) = true.

Lemma emits_read_keys i slice : emits (all_events P) (read_keys w i slice).
Proof.
  unfold read_keys. destruct (fault w i (SReadKeys slice)).
  - apply emits_raise, all_events_closed.
  - apply emits_bind; [apply all_events_closed| |].
    + apply emits_emit. unfold all_events. simpl. now rewrite P_read_keys.
    + intros _. apply emits_ret, all_events_closed.
Qed.

Lemma emits_wait_for_input i : emits (all_events P) (wait_for_input w i).
Proof.
  apply emits_for_each; [apply all_events_closed|]. intros slice.
  unfold wait_slice. apply emits_bind; [apply all_events_closed|apply emits_read_keys|].
  intros ks. destruct (existsb in_quit_keys ks).
  - apply emits_return, all_events_closed.
  - apply emits_emit. unfold all_events. simpl. now rewrite P_sleep.
Qed.
End WaitEvents.

Ltac emits_step :=
  match goal with
  | |- forall _, emits _ _ => intro
  | |- emits _ (update _ _) => apply emits_update
  | |- emits _ (get_running_jobs _ _ _) => apply emits_get_running_jobs
  | |- emits _ (call _ _) => apply emits_call, all_events_closed
  | |- emits _ (redraw _ _) => apply emits_redraw
  | |- emits _ (wait_for_input _ _) => apply emits_wait_for_input
  | |- emits _ (anyio_sleep _ _ _) => apply emits_anyio_sleep
  | |- emits _ (bind _ _) => apply emits_bind; [apply all_events_closed| |]
  end.

Lemma emits_with_rich_tick (P : event -> bool) tp dp i :
  (forall ev, is_tick_event ev = true -> P ev = true) ->
  emits (all_events P) (with_rich_tick w cfg tp dp i).
Proof.
  intros HP. unfold with_rich_tick.
  repeat emits_step; auto.
Qed.

Lemma emits_with_prompt_toolkit_tick (P : event -> bool) tp dp i :
  (forall ev, is_tick_event ev = true -> P ev = true) ->
  emits (all_events P) (with_prompt_toolkit_tick w cfg tp dp i).
Proof.
  intros HP. unfold with_prompt_toolkit_tick.
  repeat emits_step; auto.
Qed.

(** *** The wait of the polling backend *)

Lemma wait_slice_quiet i slice s :
  quiet_slice w i slice = true ->
  wait_slice w i slice s =
    (log_events [ReadKeys (keys_read w i slice); Sleep 100] s, Ok tt).
Proof.
  unfold quiet_slice, wait_slice, read_keys, bind.
  destruct (fault w i (SReadKeys slice)); [discriminate|]. simpl.
  destruct (existsb in_quit_keys (keys_read w i slice)); [discriminate|].
  intros _. unfold emit. now rewrite !log_event_events, log_events_app.
Qed.

Lemma wait_slice_quit i slice s :
  quit_slice w i slice = true ->
  wait_slice w i slice s =
    (log_events [ReadKeys (keys_read w i slice)] s, Return_).
Proof.
  unfold quit_slice, wait_slice, read_keys, bind.
  destruct (fault w i (SReadKeys slice)); [discriminate|]. simpl.
  intros ->. reflexivity.
Qed.

Lemma wait_slice_fault i slice e s :
  fault w i (SReadKeys slice) = Some e ->
  wait_slice w i slice s = (s, Raise e).
Proof.
  unfold wait_slice, read_keys, bind. intros ->. reflexivity.
Qed.

Lemma for_each_quiet i l s :
  forallb (quiet_slice w i) l = true ->
  for_each l (wait_slice w i) s =
    (log_events
       (flat_map (fun slice => [ReadKeys (keys_read w i slice); Sleep 100]) l) s,
     Ok tt).
Proof.
  revert s. induction l as [|x l IH]; intros s Hq; simpl.
  - now rewrite log_events_nil.
  - simpl in Hq. apply andb_true_iff in Hq. destruct Hq as [Hx Hl].
    unfold bind at 1. rewrite (wait_slice_quiet _ _ _ Hx), (IH _ Hl).
    now rewrite log_events_app.
Qed.

Lemma for_each_quit i l1 x l2 s :
  forallb (quiet_slice w i) l1 = true -> quit_slice w i x = true ->
  for_each (l1 ++ x :: l2) (wait_slice w i) s =
    (log_events
       (flat_map (fun slice => [ReadKeys (keys_read w i slice); Sleep 100]) l1
        ++ [ReadKeys (keys_read w i x)]) s,
     Return_).
Proof.
  revert s. induction l1 as [|y l1 IH]; intros s Hq Hx; simpl.
  - unfold bind at 1. now rewrite (wait_slice_quit _ _ _ Hx).
  - simpl in Hq. apply andb_true_iff in Hq. destruct Hq as [Hy Hl].
    unfold bind at 1. rewrite (wait_slice_quiet _ _ _ Hy), (IH _ Hl Hx).
    now rewrite log_events_app.
Qed.

Lemma range_split (n x : nat) :
  (x < n)%nat -> range n = range x ++ x :: seq (S x) (n - S x).
Proof.
  intros Hlt. unfold range.
  replace n with (x + S (n - S x))%nat at 1 by lia.
  now rewrite seq_app.
Qed.

Lemma wait_for_input_quiet i s :
  quiet w i 10 = true ->
  wait_for_input w i s = (log_events (wait_events w i 10) s, Ok tt).
Proof. intros Hq. apply for_each_quiet. exact Hq. Qed.

Lemma wait_for_input_quit i x s :
  (x < 10)%nat -> quiet w i x = true -> quit_slice w i x = true ->
  wait_for_input w i s =
    (log_events (wait_events w i x ++ [ReadKeys (keys_read w i x)]) s, Return_).
Proof.
  intros Hlt Hq Hx. unfold wait_for_input. rewrite (range_split 10 x Hlt).
  now apply for_each_quit.
Qed.

(** *** One tick *)

Lemma clean_render_faults i :
  clean_render w i = true ->
  fault w i SGetRunningJobs = None /\ fault w i SBuildJobsData = None /\
  fault w i SBuildTmpData = None /\ fault w i SRedraw = None.
Proof.
  unfold clean_render.
  destruct (fault w i SGetRunningJobs), (fault w i SBuildJobsData),
    (fault w i SBuildTmpData), (fault w i SRedraw); try discriminate.
  now repeat split.
Qed.

(** The state after the sampling and rendering of tick [i]. *)
Lemma with_rich_tick_render tp dp i s :
  clean_render w i = true ->
  with_rich_tick w cfg tp dp i s =
    wait_for_input w i
      {| screen := tick_frame cfg RTable tp dp i
                     (running_jobs w i (logdir cfg) (jobs s));
         jobs := running_jobs w i (logdir cfg) (jobs s);
         trace := trace s ++ render_events w cfg RTable tp dp i (jobs s) |}.
Proof.
  intros Hc. destruct (clean_render_faults i Hc) as (F1 & F2 & F3 & F4).
  unfold with_rich_tick, bind, update, get_running_jobs, redraw, call. simpl.
  rewrite F1. simpl. rewrite F2. simpl. rewrite F3. simpl. rewrite F4.
  unfold log_event. simpl. rewrite <- !app_assoc. reflexivity.
Qed.

Lemma with_prompt_toolkit_tick_render tp dp i s :
  clean_render w i = true ->
  with_prompt_toolkit_tick w cfg tp dp i s =
    anyio_sleep w i 1000
      {| screen := tick_frame cfg capture_rich tp dp i
                     (running_jobs w i (logdir cfg) (jobs s));
         jobs := running_jobs w i (logdir cfg) (jobs s);
         trace := trace s ++ render_events w cfg capture_rich tp dp i (jobs s) |}.
Proof.
  intros Hc. destruct (clean_render_faults i Hc) as (F1 & F2 & F3 & F4).
  unfold with_prompt_toolkit_tick, bind, update, get_running_jobs, redraw, call.
  simpl. rewrite F1. simpl. rewrite F2. simpl. rewrite F3. simpl. rewrite F4.
  unfold log_event. simpl. rewrite <- !app_assoc. reflexivity.
Qed.

Lemma with_rich_tick_clean tp dp i s :
  clean_render w i = true -> quiet w i 10 = true ->
  with_rich_tick w cfg tp dp i s =
    ({| screen := tick_frame cfg RTable tp dp i
                    (running_jobs w i (logdir cfg) (jobs s));
        jobs := running_jobs w i (logdir cfg) (jobs s);
        trace := trace s ++ render_events w cfg RTable tp dp i (jobs s)
                         ++ wait_events w i 10 |}, Ok tt).
Proof.
  intros Hc Hq. rewrite (with_rich_tick_render _ _ _ _ Hc).
  rewrite (wait_for_input_quiet _ _ Hq). unfold log_events. simpl.
  now rewrite <- app_assoc.
Qed.

Lemma with_rich_tick_quit tp dp i x s :
  clean_render w i = true -> (x < 10)%nat -> quiet w i x = true ->
  quit_slice w i x = true ->
  with_rich_tick w cfg tp dp i s =
    ({| screen := tick_frame cfg RTable tp dp i
                    (running_jobs w i (logdir cfg) (jobs s));
        jobs := running_jobs w i (logdir cfg) (jobs s);
        trace := trace s ++ render_events w cfg RTable tp dp i (jobs s)
                         ++ wait_events w i x ++ [ReadKeys (keys_read w i x)] |},
     Return_).
Proof.
  intros Hc Hlt Hq Hx. rewrite (with_rich_tick_render _ _ _ _ Hc).
  rewrite (wait_for_input_quit _ _ _ Hlt Hq Hx). unfold log_events. simpl.
  now rewrite <- app_assoc.
Qed.

Lemma with_rich_tick_sampling_error tp dp i e s :
  fault w i SGetRunningJobs = Some e ->
  with_rich_tick w cfg tp dp i s =
    ({| screen := screen_update Header (RText (str (VInt (Z.of_nat i)))) (screen s);
        jobs := jobs s;
        trace := trace s ++ [Update Header (RText (str (VInt (Z.of_nat i))))] |},
     Raise e).
Proof.
  intros F. unfold with_rich_tick, bind, update, get_running_jobs. simpl.
  rewrite F. reflexivity.
Qed.

Lemma with_prompt_toolkit_tick_clean tp dp i s :
  clean_render w i = true -> cancelled w i = false ->
  with_prompt_toolkit_tick w cfg tp dp i s =
    ({| screen := tick_frame cfg capture_rich tp dp i
                    (running_jobs w i (logdir cfg) (jobs s));
        jobs := running_jobs w i (logdir cfg) (jobs s);
        trace := trace s ++ render_events w cfg capture_rich tp dp i (jobs s)
                         ++ [Suspend 1000] |}, Ok tt).
Proof.
  intros Hc Hn. rewrite (with_prompt_toolkit_tick_render _ _ _ _ Hc).
  unfold anyio_sleep, bind, emit, log_event. simpl. rewrite Hn. simpl.
  now rewrite <- app_assoc.
Qed.

Lemma with_prompt_toolkit_tick_sampling_error tp dp i e s :
  fault w i SGetRunningJobs = Some e ->
  with_prompt_toolkit_tick w cfg tp dp i s =
    ({| screen := screen_update Header (RText (str (VInt (Z.of_nat i)))) (screen s);
        jobs := jobs s;
        trace := trace s ++ [Update Header (RText (str (VInt (Z.of_nat i))))] |},
     Raise e).
Proof.
  intros F. unfold with_prompt_toolkit_tick, bind, update, get_running_jobs. simpl.
  rewrite F. reflexivity.
Qed.

(** *** Many ticks *)

Lemma state_eta (s : State) :
  {| screen := screen s; jobs := jobs s; trace := trace s ++ [] |} = s.
Proof. destruct s. simpl. now rewrite app_nil_r. Qed.

Lemma for_count_clean tp dp n :
  forall m i s,
    clean_ticks w n i = true ->
    for_count (n + m) i (with_rich_tick w cfg tp dp) s =
    for_count m (n + i) (with_rich_tick w cfg tp dp)
      {| screen := ticks_screen w cfg RTable tp dp n i (screen s) (jobs s);
         jobs := ticks_jobs w cfg n i (jobs s);
         trace := trace s ++ ticks_events w cfg RTable tp dp n i (jobs s) |}.
Proof.
  induction n as [|n IH]; intros m i s Hc.
  - simpl. now rewrite state_eta.
  - simpl in Hc. apply andb_true_iff in Hc. destruct Hc as [Hc Hn].
    apply andb_true_iff in Hc. destruct Hc as [Hr Hq].
    cbn [Nat.add for_count]. unfold bind at 1.
    rewrite (with_rich_tick_clean _ _ _ _ Hr Hq).
    rewrite (IH _ _ _ Hn). cbn [screen jobs trace].
    cbn [ticks_screen ticks_jobs ticks_events].
    rewrite <- Nat.add_succ_comm. cbn [Nat.add].
    now rewrite <- !app_assoc.
Qed.

Lemma coop_for_count_clean tp dp n :
  forall m i s,
    coop_clean_ticks w n i = true ->
    for_count (n + m) i (with_prompt_toolkit_tick w cfg tp dp) s =
    for_count m (n + i) (with_prompt_toolkit_tick w cfg tp dp)
      {| screen := ticks_screen w cfg capture_rich tp dp n i (screen s) (jobs s);
         jobs := ticks_jobs w cfg n i (jobs s);
         trace := trace s ++ coop_ticks_events w cfg capture_rich tp dp n i (jobs s) |}.
Proof.
  induction n as [|n IH]; intros m i s Hc.
  - simpl. now rewrite state_eta.
  - simpl in Hc. apply andb_true_iff in Hc. destruct Hc as [Hc Hn].
    apply andb_true_iff in Hc. destruct Hc as [Hr Hq].
    apply negb_true_iff in Hq.
    cbn [Nat.add for_count]. unfold bind at 1.
    rewrite (with_prompt_toolkit_tick_clean _ _ _ _ Hr Hq).
    rewrite (IH _ _ _ Hn). cbn [screen jobs trace].
    cbn [ticks_screen ticks_jobs coop_ticks_events].
    rewrite <- Nat.add_succ_comm. cbn [Nat.add].
    now rewrite <- !app_assoc.
Qed.

(** *** Whole runs *)

Lemma bind_ret {A B} (a : A) (f : A -> M B) : bind (ret a) f = f a.
Proof. reflexivity. Qed.

Lemma with_rich_configured tp dp fuel :
  configured cfg tp dp ->
  with_rich w cfg fuel =
    def (with_ (raw_mode_fault w) RawModeEnter RawModeExit
           (with_ (live_fault w) LiveStart LiveStop
              (for_count fuel 0 (with_rich_tick w cfg tp dp)))).
Proof.
  intros [Ht Hd]. unfold with_rich, os_path_commonpath. rewrite Ht, Hd.
  now rewrite !bind_ret.
Qed.

Lemma with_prompt_toolkit_configured tp dp fuel :
  configured cfg tp dp ->
  with_prompt_toolkit w cfg fuel =
    def (task_group
           (bind (emit (AddKeyBinding "q")) (fun _ =>
            bind (emit (AddKeyBinding "c-c")) (fun _ =>
            bind (emit StartSoon) (fun _ =>
            for_count fuel 0 (with_prompt_toolkit_tick w cfg tp dp)))))).
Proof.
  intros [Ht Hd]. unfold with_prompt_toolkit, os_path_commonpath. rewrite Ht, Hd.
  now rewrite !bind_ret.
Qed.

(** The polling backend returns when a quit key is read. *)
Lemma with_rich_quits tp dp n x fuel :
  starts w cfg tp dp -> quits_at w n x = true -> (n < fuel)%nat ->
  with_rich w cfg fuel rich_init =
    ({| screen := tick_frame cfg RTable tp dp n
                    (running_jobs w n (logdir cfg) (ticks_jobs w cfg n 0 []));
        jobs := running_jobs w n (logdir cfg) (ticks_jobs w cfg n 0 []);
        trace := [RawModeEnter; LiveStart]
                 ++ ticks_events w cfg RTable tp dp n 0 []
                 ++ render_events w cfg RTable tp dp n (ticks_jobs w cfg n 0 [])
                 ++ wait_events w n x
                 ++ [ReadKeys (keys_read w n x); LiveStop; RawModeExit] |},
     Ok tt).
Proof.
  intros (Hcfg & Hraw & Hlive) Hq Hlt.
  unfold quits_at in Hq. repeat (apply andb_true_iff in Hq; destruct Hq as [Hq ?]).
  rewrite (with_rich_configured tp dp fuel Hcfg).
  unfold def, with_. rewrite Hraw, Hlive.
  replace fuel with (n + S (fuel - S n))%nat by lia.
  rewrite for_count_clean by assumption. rewrite Nat.add_0_r.
  cbn [for_count]. unfold bind at 1.
  rewrite (with_rich_tick_quit tp dp n x) by (auto; now apply Nat.ltb_lt).
  unfold log_event, rich_init. cbn [screen jobs trace].
  rewrite <- !app_assoc. reflexivity.
Qed.

(** The polling backend ends with the exception of a failed sampling. *)
Lemma with_rich_sampling_error tp dp n e fuel :
  starts w cfg tp dp -> sampling_fails_at w n e -> (n < fuel)%nat ->
  with_rich w cfg fuel rich_init =
    ({| screen := screen_update Header (RText (str (VInt (Z.of_nat n))))
                    (ticks_screen w cfg RTable tp dp n 0 (screen rich_init) []);
        jobs := ticks_jobs w cfg n 0 [];
        trace := [RawModeEnter; LiveStart]
                 ++ ticks_events w cfg RTable tp dp n 0 []
                 ++ [Update Header (RText (str (VInt (Z.of_nat n))));
                     LiveStop; RawModeExit] |},
     Raise e).
Proof.
  intros (Hcfg & Hraw & Hlive) [Hclean Hf] Hlt.
  rewrite (with_rich_configured tp dp fuel Hcfg).
  unfold def, with_. rewrite Hraw, Hlive.
  replace fuel with (n + S (fuel - S n))%nat by lia.
  rewrite for_count_clean by assumption. rewrite Nat.add_0_r.
  cbn [for_count]. unfold bind at 1.
  rewrite (with_rich_tick_sampling_error tp dp n e _ Hf).
  unfold log_event, rich_init. cbn [screen jobs trace].
  rewrite <- !app_assoc. reflexivity.
Qed.

(** The cooperative backend ends with the exception of a failed sampling. *)
Lemma with_prompt_toolkit_sampling_error tp dp n e fuel :
  configured cfg tp dp -> coop_sampling_fails_at w n e -> (n < fuel)%nat ->
  with_prompt_toolkit w cfg fuel prompt_toolkit_init =
    ({| screen := screen_update Header (RText (str (VInt (Z.of_nat n))))
                    (ticks_screen w cfg capture_rich tp dp n 0
                       (screen prompt_toolkit_init) []);
        jobs := ticks_jobs w cfg n 0 [];
        trace := [TaskGroupEnter; AddKeyBinding "q"; AddKeyBinding "c-c"; StartSoon]
                 ++ coop_ticks_events w cfg capture_rich tp dp n 0 []
                 ++ [Update Header (RText (str (VInt (Z.of_nat n))));
                     TaskGroupExit] |},
     Raise e).
Proof.
  intros Hcfg [Hclean Hf] Hlt.
  rewrite (with_prompt_toolkit_configured tp dp fuel Hcfg).
  unfold def, task_group, bind at 1 2 3, emit.
  replace fuel with (n + S (fuel - S n))%nat by lia.
  rewrite coop_for_count_clean by assumption. rewrite Nat.add_0_r.
  cbn [for_count]. unfold bind at 1.
  rewrite (with_prompt_toolkit_tick_sampling_error tp dp n e _ Hf).
  unfold log_event, prompt_toolkit_init. cbn [screen jobs trace].
  rewrite <- !app_assoc. reflexivity.
Qed.

(** *** Redraws *)

Lemma with_rich_tick_no_redraw tp dp i :
  clean_render w i = false ->
  emits (all_events not_redraw) (with_rich_tick w cfg tp dp i).
Proof.
  intros Hc s. unfold clean_render in Hc.
  unfold with_rich_tick, bind, update, get_running_jobs, call, redraw, raise, ret.
  simpl.
  destruct (fault w i SGetRunningJobs); simpl;
    [eexists; split; [reflexivity|reflexivity]|].
  destruct (fault w i SBuildJobsData); simpl;
    [eexists; split; [rewrite <- !app_assoc; reflexivity|reflexivity]|].
  destruct (fault w i SBuildTmpData); simpl;
    [eexists; split; [rewrite <- !app_assoc; reflexivity|reflexivity]|].
  destruct (fault w i SRedraw); simpl;
    [eexists; split; [rewrite <- !app_assoc; reflexivity|reflexivity]|].
  discriminate.
Qed.

Lemma with_prompt_toolkit_tick_no_redraw tp dp i :
  clean_render w i = false ->
  emits (all_events not_redraw) (with_prompt_toolkit_tick w cfg tp dp i).
Proof.
  intros Hc s. unfold clean_render in Hc.
  unfold with_prompt_toolkit_tick, bind, update, get_running_jobs, call, redraw,
    raise, ret.
  simpl.
  destruct (fault w i SGetRunningJobs); simpl;
    [eexists; split; [reflexivity|reflexivity]|].
  destruct (fault w i SBuildJobsData); simpl;
    [eexists; split; [rewrite <- !app_assoc; reflexivity|reflexivity]|].
  destruct (fault w i SBuildTmpData); simpl;
    [eexists; split; [rewrite <- !app_assoc; reflexivity|reflexivity]|].
  destruct (fault w i SRedraw); simpl;
    [eexists; split; [rewrite <- !app_assoc; reflexivity|reflexivity]|].
  discriminate.
Qed.

Lemma with_rich_tick_follow tp dp i :
  emits (redraws_follow_updates w cfg RTable tp dp) (with_rich_tick w cfg tp dp i).
Proof.
  destruct (clean_render w i) eqn:Hc; intros s.
  - rewrite (with_rich_tick_render _ _ _ _ Hc).
    match goal with |- context [wait_for_input w i ?st] =>
      destruct (emits_wait_for_input not_redraw (fun _ => eq_refl) (fun _ => eq_refl) i st)
        as (evs & Ht & Hall)
    end.
    exists (render_events w cfg RTable tp dp i (jobs s) ++ evs).
    rewrite Ht. cbn [trace]. rewrite app_assoc. split; [reflexivity|].
    now apply tick_follows.
  - destruct (with_rich_tick_no_redraw tp dp i Hc s) as (evs & Ht & Hall).
    exists evs. split; [exact Ht|]. now apply no_redraw_follow.
Qed.

Lemma with_prompt_toolkit_tick_follow tp dp i :
  emits (redraws_follow_updates w cfg capture_rich tp dp)
        (with_prompt_toolkit_tick w cfg tp dp i).
Proof.
  destruct (clean_render w i) eqn:Hc; intros s.
  - rewrite (with_prompt_toolkit_tick_render _ _ _ _ Hc).
    match goal with |- context [anyio_sleep w i 1000 ?st] =>
      destruct (emits_anyio_sleep not_redraw (fun _ => eq_refl) i 1000 st)
        as (evs & Ht & Hall)
    end.
    exists (render_events w cfg capture_rich tp dp i (jobs s) ++ evs).
    rewrite Ht. cbn [trace]. rewrite app_assoc. split; [reflexivity|].
    now apply tick_follows.
  - destruct (with_prompt_toolkit_tick_no_redraw tp dp i Hc s) as (evs & Ht & Hall).
    exists evs. split; [exact Ht|]. now apply no_redraw_follow.
Qed.

Lemma with_rich_follow tp dp fuel :
  configured cfg tp dp ->
  redraws_follow_updates w cfg RTable tp dp
    (trace (fst (with_rich w cfg fuel rich_init))).
Proof.
  intros Hcfg. rewrite (with_rich_configured tp dp fuel Hcfg).
  pose proof (redraws_follow_updates_closed w cfg RTable tp dp) as Hcl.
  assert (Hnr : forall ev, not_redraw ev = true ->
                  redraws_follow_updates w cfg RTable tp dp [ev])
    by (intros ev Hev; apply no_redraw_follow; unfold all_events; simpl;
        now rewrite Hev).
  match goal with |- context [fst (?m rich_init)] =>
    assert (Hm : emits (redraws_follow_updates w cfg RTable tp dp) m)
  end.
  { apply emits_def.
    apply emits_with; [exact Hcl|now apply Hnr|now apply Hnr|].
    apply emits_with; [exact Hcl|now apply Hnr|now apply Hnr|].
    apply emits_for_count; [exact Hcl|]. intros j. apply with_rich_tick_follow. }
  destruct (Hm rich_init) as (evs & Ht & Hq). rewrite Ht. exact Hq.
Qed.

Lemma with_prompt_toolkit_follow tp dp fuel :
  configured cfg tp dp ->
  redraws_follow_updates w cfg capture_rich tp dp
    (trace (fst (with_prompt_toolkit w cfg fuel prompt_toolkit_init))).
Proof.
  intros Hcfg. rewrite (with_prompt_toolkit_configured tp dp fuel Hcfg).
  pose proof (redraws_follow_updates_closed w cfg capture_rich tp dp) as Hcl.
  assert (Hnr : forall ev, not_redraw ev = true ->
                  redraws_follow_updates w cfg capture_rich tp dp [ev])
    by (intros ev Hev; apply no_redraw_follow; unfold all_events; simpl;
        now rewrite Hev).
  match goal with |- context [fst (?m prompt_toolkit_init)] =>
    assert (Hm : emits (redraws_follow_updates w cfg capture_rich tp dp) m)
  end.
  { apply emits_def.
    apply emits_task_group; [exact Hcl|now apply Hnr|now apply Hnr|].
    repeat (apply emits_bind; [exact Hcl|apply emits_emit; now apply Hnr|intros _]).
    apply emits_for_count; [exact Hcl|]. intros j.
    apply with_prompt_toolkit_tick_follow. }
  destruct (Hm prompt_toolkit_init) as (evs & Ht & Hq). rewrite Ht. exact Hq.
Qed.

Lemma with_rich_not_configured fuel :
  match commonpath (Directories.tmp (directories cfg)),
        commonpath (Directories.dst (directories cfg)) with
  | Some _, Some _ => True
  | _, _ =>
      with_rich w cfg fuel rich_init = (rich_init, Raise (Exception "ValueError")) /\
      with_prompt_toolkit w cfg fuel prompt_toolkit_init =
        (prompt_toolkit_init, Raise (Exception "ValueError"))
  end.
Proof.
  unfold with_rich, with_prompt_toolkit, os_path_commonpath.
  destruct (commonpath (Directories.tmp (directories cfg)));
    destruct (commonpath (Directories.dst (directories cfg))); auto.
Qed.

(** *** Raw mode *)

Lemma with_None {A} (enter exit : event) (body : M A) s :
  with_ None enter exit body s =
    match body (log_event enter s) with
    | (s', Running) => (s', Running)
    | (s', r) => (log_event exit s', r)
    end.
Proof. reflexivity. Qed.

Lemma with_Some {A} (e : exn) (enter exit : event) (body : M A) s :
  with_ (Some e) enter exit body s = (s, Raise e).
Proof. reflexivity. Qed.

Lemma tick_event_not_raw_mode (ev : event) :
  is_tick_event ev = true -> not_raw_mode ev = true.
Proof. destruct ev; simpl; auto; discriminate. Qed.

Lemma filter_not_raw_mode (mid : list event) :
  all_events not_raw_mode mid ->
  filter is_raw_mode_enter mid = [] /\ filter is_raw_mode_exit mid = [].
Proof.
  unfold all_events. induction mid as [|ev mid IH]; simpl; [auto|].
  intros Hall. apply andb_true_iff in Hall. destruct Hall as [Hev Hmid].
  destruct (IH Hmid) as [IH1 IH2].
  destruct ev; simpl in *; try discriminate; auto.
Qed.

Lemma slept_wait_events i n : slept (wait_events w i n) = 100 * Z.of_nat n.
Proof.
  unfold wait_events, range. generalize 0%nat.
  induction n as [|n IH]; intros a; [reflexivity|].
  cbn [seq flat_map app slept]. rewrite IH. lia.
Qed.

Lemma read_keys_wait_events i n :
  List.length (filter is_read_keys (wait_events w i n)) = n.
Proof.
  unfold wait_events, range. generalize 0%nat.
  induction n as [|n IH]; intros a; [reflexivity|].
  cbn [seq flat_map app filter is_read_keys List.length]. now rewrite IH.
Qed.

(** ** The claims about the loops *)

(** C5, as the code has it.  When job discovery raises in tick [n],
    after [n] ticks without incident, neither loop goes on: the polling
    backend leaves the live display and raw mode and ends with that
    exception, the cooperative backend leaves its task group and ends
    with it; the last thing either did was to write the header of tick
    [n]. *)
Theorem sampling_error_ends_the_loop (tmp_prefix dst_prefix : string)
    (n fuel : nat) (e : exn) :
  (starts w cfg tmp_prefix dst_prefix -> sampling_fails_at w n e ->
   (n < fuel)%nat ->
   with_rich w cfg fuel rich_init =
     ({| screen := screen_update Header (RText (str (VInt (Z.of_nat n))))
                     (ticks_screen w cfg RTable tmp_prefix dst_prefix n 0
                        (screen rich_init) []);
         jobs := ticks_jobs w cfg n 0 [];
         trace := [RawModeEnter; LiveStart]
                  ++ ticks_events w cfg RTable tmp_prefix dst_prefix n 0 []
                  ++ [Update Header (RText (str (VInt (Z.of_nat n))));
                      LiveStop; RawModeExit] |},
      Raise e)) /\
  (configured cfg tmp_prefix dst_prefix -> coop_sampling_fails_at w n e ->
   (n < fuel)%nat ->
   with_prompt_toolkit w cfg fuel prompt_toolkit_init =
     ({| screen := screen_update Header (RText (str (VInt (Z.of_nat n))))
                     (ticks_screen w cfg capture_rich tmp_prefix dst_prefix n 0
                        (screen prompt_toolkit_init) []);
         jobs := ticks_jobs w cfg n 0 [];
         trace := [TaskGroupEnter; AddKeyBinding "q"; AddKeyBinding "c-c"; StartSoon]
                  ++ coop_ticks_events w cfg capture_rich tmp_prefix dst_prefix n 0 []
                  ++ [Update Header (RText (str (VInt (Z.of_nat n))));
                      TaskGroupExit] |},
      Raise e)).
Proof.
  split.
  - apply with_rich_sampling_error.
  - apply with_prompt_toolkit_sampling_error.
Qed.

(** C6. The wait of the polling backend reads the keys in ten slices
    and sleeps 100 ms after each, one second in all, when no slice reads
    a quit key; when slice [x] is the first to read one, the wait ends
    there by [return], after [x] sleeps and without the slices behind
    it; and the whole of [with_rich] then returns: after that read it
    only leaves the live display and raw mode. *)
Theorem wait_polls_ten_slices_and_quits_at_once (tmp_prefix dst_prefix : string) :
  (forall i s,
     quiet w i 10 = true ->
     wait_for_input w i s = (log_events (wait_events w i 10) s, Ok tt) /\
     List.length (filter is_read_keys (wait_events w i 10)) = 10%nat /\
     slept (wait_events w i 10) = 1000) /\
  (forall i x s,
     (x < 10)%nat -> quiet w i x = true -> quit_slice w i x = true ->
     wait_for_input w i s =
       (log_events (wait_events w i x ++ [ReadKeys (keys_read w i x)]) s,
        Return_) /\
     slept (wait_events w i x ++ [ReadKeys (keys_read w i x)]) = 100 * Z.of_nat x) /\
  (forall n x fuel,
     starts w cfg tmp_prefix dst_prefix -> quits_at w n x = true ->
     (n < fuel)%nat ->
     with_rich w cfg fuel rich_init =
       ({| screen := tick_frame cfg RTable tmp_prefix dst_prefix n
                       (running_jobs w n (logdir cfg) (ticks_jobs w cfg n 0 []));
           jobs := running_jobs w n (logdir cfg) (ticks_jobs w cfg n 0 []);
           trace := [RawModeEnter; LiveStart]
                    ++ ticks_events w cfg RTable tmp_prefix dst_prefix n 0 []
                    ++ render_events w cfg RTable tmp_prefix dst_prefix n
                         (ticks_jobs w cfg n 0 [])
                    ++ wait_events w n x
                    ++ [ReadKeys (keys_read w n x); LiveStop; RawModeExit] |},
        Ok tt)).
Proof.
  split; [|split].
  - intros i s Hq. split; [now apply wait_for_input_quiet|]. split.
    + apply read_keys_wait_events.
    + apply slept_wait_events.
  - intros i x s Hlt Hq Hx. split; [now apply wait_for_input_quit|].
    assert (Happ : forall a b : list event, slept (a ++ b) = slept a + slept b).
    { induction a as [|ev a IH]; intros b; simpl; [reflexivity|].
      destruct ev; rewrite ?IH; lia. }
    rewrite Happ, slept_wait_events. simpl. lia.
  - intros n x fuel. apply with_rich_quits.
Qed.

(** C8. Whenever [with_rich] gets as far as raw mode, its trace starts
    with the one entry into raw mode; when the run has ended, by [return]
    or by an exception, the trace ends with the one exit from it; while
    the loop still runs there is no exit yet.  When the configuration has
    no common path or raw mode cannot be entered, nothing was acquired
    and the run ends with the exception. *)
Theorem raw_mode_entered_and_left_once (fuel : nat) :
  let run := with_rich w cfg fuel rich_init in
  match commonpath (Directories.tmp (directories cfg)),
        commonpath (Directories.dst (directories cfg)),
        raw_mode_fault w with
  | Some _, Some _, None =>
      exists mid,
        all_events not_raw_mode mid /\
        trace (fst run) =
          RawModeEnter :: mid ++
            match snd run with Running => [] | _ => [RawModeExit] end /\
        List.length (filter is_raw_mode_enter (trace (fst run))) = 1%nat /\
        List.length (filter is_raw_mode_exit (trace (fst run))) =
          match snd run with Running => 0%nat | _ => 1%nat end
  | _, _, _ => trace (fst run) = [] /\ exists e, snd run = Raise e
  end.
Proof.
  intros run. unfold run. clear run.
  pose proof (with_rich_not_configured fuel) as Hnc.
  destruct (commonpath (Directories.tmp (directories cfg))) as [tp|] eqn:Et;
    [destruct (commonpath (Directories.dst (directories cfg))) as [dp|] eqn:Ed|].
  2, 3: destruct Hnc as [Hnc _]; rewrite Hnc; split; [reflexivity|eexists; reflexivity].
  rewrite (with_rich_configured tp dp fuel (conj Et Ed)). unfold def.
  destruct (raw_mode_fault w) as [e|].
  { rewrite with_Some. split; [reflexivity|eexists; reflexivity]. }
  rewrite with_None.
  assert (Hm : emits (all_events not_raw_mode)
                 (with_ (live_fault w) LiveStart LiveStop
                    (for_count fuel 0 (with_rich_tick w cfg tp dp)))).
  { apply emits_with; [apply all_events_closed|reflexivity|reflexivity|].
    apply emits_for_count; [apply all_events_closed|]. intros j.
    apply emits_with_rich_tick, tick_event_not_raw_mode. }
  destruct (Hm (log_event RawModeEnter rich_init)) as (mid & Ht & Hmid).
  destruct (filter_not_raw_mode mid Hmid) as [Fe Fx].
  destruct (with_ (live_fault w) LiveStart LiveStop
              (for_count fuel 0 (with_rich_tick w cfg tp dp))
              (log_event RawModeEnter rich_init)) as [s' r].
  simpl in Ht. exists mid. split; [exact Hmid|].
  destruct r; cbn [fst snd log_event trace]; rewrite Ht; simpl;
    rewrite ?app_nil_r, ?filter_app, ?Fe, ?Fx; auto.
Qed.

End LoopFacts.

(** ** The tables *)

Lemma table_rows_add_rows {A} (f : A -> list value) (l : list A) (t : Table) :
  table_rows (fold_left (fun t x => add_row (f x) t) l t) = table_rows t ++ map f l.
Proof.
  revert t. induction l as [|x l IH]; intros t; simpl.
  - now rewrite app_nil_r.
  - rewrite IH. simpl. now rewrite <- app_assoc.
Qed.

Lemma build_tmp_table_rows (tmp_data : list TmpRow) :
  columns (build_tmp_table tmp_data) = ["tmp"; "ready"; "phases"] /\
  table_rows (build_tmp_table tmp_data) = map TmpRow_astuple tmp_data.
Proof.
  unfold build_tmp_table. split.
  - assert (Hc : forall l t0,
      columns (fold_left (fun t row => add_row (TmpRow_astuple row) t) l t0) = columns t0).
    { induction l as [|x l IH]; intros t0; simpl; [reflexivity|]. now rewrite IH. }
    rewrite Hc. reflexivity.
  - now rewrite table_rows_add_rows.
Qed.

Lemma build_jobs_table_rows (jobs_data : list JobRow) :
  table_rows (build_jobs_table jobs_data) =
    map (fun ir => VStr (str (VInt (fst ir))) :: JobRow_astuple (snd ir))
        (enumerate jobs_data).
Proof. unfold build_jobs_table. now rewrite table_rows_add_rows. Qed.

(** C9. [from_tmp] asks the scheduling policy about the abbreviated
    path, the very string it stores as [path].  In both loops the prefix
    is the common path of the configured tmp directories: in every frame
    the tmp table has, for each configured directory in ascending order,
    the row of its abbreviation, of the policy's answer for that
    abbreviation, and of its formatted phases. *)
Theorem policy_is_asked_about_abbreviated_path `{C : Collaborators} :
  (forall dir_cfg jobs sched_cfg tmp prefix,
     path (from_tmp dir_cfg jobs sched_cfg tmp prefix) = VStr (abbr_path tmp prefix) /\
     ready (from_tmp dir_cfg jobs sched_cfg tmp prefix) =
       VStr (if phases_permit_new_job (from_tmp_phases jobs tmp)
                  (abbr_path tmp prefix) sched_cfg dir_cfg
             then "OK" else "--")) /\
  (forall (w : World) (cfg : Config) fuel pre frame post,
     trace (fst (with_rich w cfg fuel rich_init)) = pre ++ Redraw frame :: post ->
     exists tmp_prefix js table,
       commonpath (Directories.tmp (directories cfg)) = Some tmp_prefix /\
       disks_region frame = RTable table /\
       table_rows table =
         map (fun tmp =>
                [ VStr (abbr_path tmp tmp_prefix);
                  VStr (if phases_permit_new_job (from_tmp_phases js tmp)
                             (abbr_path tmp tmp_prefix) (scheduling cfg)
                             (directories cfg)
                        then "OK" else "--");
                  VStr (phases_str (from_tmp_phases js tmp) 5) ])
             (sorted String.ltb (fun tmp => tmp)
                (Directories.tmp (directories cfg)))) /\
  (forall (w : World) (cfg : Config) fuel pre frame post,
     trace (fst (with_prompt_toolkit w cfg fuel prompt_toolkit_init)) =
       pre ++ Redraw frame :: post ->
     exists tmp_prefix js table,
       commonpath (Directories.tmp (directories cfg)) = Some tmp_prefix /\
       disks_region frame = capture_rich table /\
       table_rows table =
         map (fun tmp =>
                [ VStr (abbr_path tmp tmp_prefix);
                  VStr (if phases_permit_new_job (from_tmp_phases js tmp)
                             (abbr_path tmp tmp_prefix) (scheduling cfg)
                             (directories cfg)
                        then "OK" else "--");
                  VStr (phases_str (from_tmp_phases js tmp) 5) ])
             (sorted String.ltb (fun tmp => tmp)
                (Directories.tmp (directories cfg)))).
Proof.
  split; [intros; split; reflexivity|]. split.
  - intros w cfg fuel pre frame post Htr.
    pose proof (with_rich_not_configured w cfg fuel) as Hnc.
    destruct (commonpath (Directories.tmp (directories cfg))) as [tp|] eqn:Et;
      [destruct (commonpath (Directories.dst (directories cfg))) as [dp|] eqn:Ed|].
    2, 3: destruct Hnc as [Hnc _]; rewrite Hnc in Htr; now destruct pre.
    destruct (with_rich_follow w cfg tp dp fuel (conj Et Ed) pre frame post Htr)
      as (pre' & i & cached & _ & Hf).
    exists tp, (running_jobs w i (logdir cfg) cached). eexists.
    split; [reflexivity|]. split; [rewrite Hf; reflexivity|].
    destruct (build_tmp_table_rows
                (build_tmp_data (running_jobs w i (logdir cfg) cached)
                   (directories cfg) (scheduling cfg) tp)) as [_ ->].
    unfold build_tmp_data. rewrite map_map. reflexivity.
  - intros w cfg fuel pre frame post Htr.
    pose proof (with_rich_not_configured w cfg fuel) as Hnc.
    destruct (commonpath (Directories.tmp (directories cfg))) as [tp|] eqn:Et;
      [destruct (commonpath (Directories.dst (directories cfg))) as [dp|] eqn:Ed|].
    2, 3: destruct Hnc as [_ Hnc]; rewrite Hnc in Htr; now destruct pre.
    destruct (with_prompt_toolkit_follow w cfg tp dp fuel (conj Et Ed)
                pre frame post Htr) as (pre' & i & cached & _ & Hf).
    exists tp, (running_jobs w i (logdir cfg) cached). eexists.
    split; [reflexivity|]. split; [rewrite Hf; reflexivity|].
    destruct (build_tmp_table_rows
                (build_tmp_data (running_jobs w i (logdir cfg) cached)
                   (directories cfg) (scheduling cfg) tp)) as [_ ->].
    unfold build_tmp_data. rewrite map_map. reflexivity.
Qed.

(** ** Examples, witnesses and counterexamples *)

Lemma pair_ltb_asym (a b : Z * Z) : pair_ltb a b = true -> pair_ltb b a = false.
Proof. destruct a, b. unfold pair_ltb. simpl. lia. Qed.

(** The scenario of the spec: the 5s job comes before the 10s job. *)
Example build_jobs_data_scenario :
  map wall (build_jobs_data ex_jobs "/dst" "/mnt") = [VStr "5s"; VStr "10s"].
Proof. reflexivity. Qed.

(** Jobs tied on wall time keep their order. *)
Example build_jobs_data_tied :
  map plot_id (build_jobs_data ex_jobs_tied "/dst" "/mnt") =
    [VStr "bbbb"; VStr "aaaa"; VStr "cccc"].
Proof. reflexivity. Qed.

(** The scenario of the spec: one row per tmp directory, by path. *)
Example build_tmp_data_scenario :
  build_tmp_data ex_jobs ex_dirs tt "/mnt" =
    [ {| path := VStr "a"; ready := VStr "OK"; phases := VStr "1:2" |};
      {| path := VStr "b"; ready := VStr "OK"; phases := VStr "2:1" |} ].
Proof. reflexivity. Qed.

(** The policy that knows only [a] is content with the first directory:
    it was asked about [a], not about [/mnt/a]. *)
Example build_tmp_data_named :
  map ready (@build_tmp_data _ ex_collaborators_named ex_jobs ex_dirs tt "/mnt") =
    [VStr "OK"; VStr "--"].
Proof. reflexivity. Qed.

(** Two jobs in the same phase on one directory give that phase twice. *)
Example from_tmp_phases_repeats :
  from_tmp_phases
    [ex_job "a1" "/mnt/a" 1 (1, 2); ex_job "a2" "/mnt/a" 2 (1, 2)] "/mnt/a" =
  [(1, 2); (1, 2)].
Proof. reflexivity. Qed.

(** C5, counterexample.  Job discovery raises in tick 1: with room for
    five ticks, both loops have ended with the exception, after a single
    sampling. *)
Lemma sampling_error_stops_both_loops :
  snd (with_rich ex_world_fault ex_cfg 5 rich_init) = Raise (Exception "OSError") /\
  snd (with_prompt_toolkit ex_world_fault ex_cfg 5 prompt_toolkit_init) =
    Raise (Exception "OSError") /\
  List.length (filter is_sampling
    (trace (fst (with_rich ex_world_fault ex_cfg 5 rich_init)))) = 1%nat /\
  List.length (filter is_sampling
    (trace (fst (with_prompt_toolkit ex_world_fault ex_cfg 5 prompt_toolkit_init)))) = 1%nat.
Proof. vm_compute. repeat split. Qed.

(** The same world, by the general statement: job discovery fails in
    tick 1 after one tick without incident. *)
Lemma sampling_error_ends_the_loop_witness :
  snd (with_rich ex_world_fault ex_cfg 5 rich_init) = Raise (Exception "OSError") /\
  snd (with_prompt_toolkit ex_world_fault ex_cfg 5 prompt_toolkit_init) =
    Raise (Exception "OSError").
Proof.
  destruct (sampling_error_ends_the_loop ex_world_fault ex_cfg "/mnt" "/dst" 1 5
              (Exception "OSError")) as [Hrich Hcoop].
  rewrite Hrich, Hcoop.
  - split; reflexivity.
  - split; reflexivity.
  - split; reflexivity.
  - lia.
  - repeat split; reflexivity.
  - split; reflexivity.
  - lia.
Defined.

(** The world in which [q] comes in slice 3 of tick 2: the wait of tick
    0 runs through, the wait of tick 2 returns, and so does [with_rich]. *)
Lemma wait_polls_ten_slices_and_quits_at_once_witness :
  snd (wait_for_input ex_world_quit 0 rich_init) = Ok tt /\
  snd (wait_for_input ex_world_quit 2 rich_init) = Return_ /\
  snd (with_rich ex_world_quit ex_cfg 5 rich_init) = Ok tt.
Proof.
  destruct (wait_polls_ten_slices_and_quits_at_once ex_world_quit ex_cfg "/mnt" "/dst")
    as (Hquiet & Hquit & Hrun).
  destruct (Hquiet 0%nat rich_init) as [-> _]; [reflexivity|].
  destruct (Hquit 2%nat 3%nat rich_init) as [-> _]; [lia|reflexivity|reflexivity|].
  rewrite (Hrun 2%nat 3%nat 5%nat); [repeat split| |reflexivity|lia].
  repeat split; reflexivity.
Defined.

(** Both ways out of [with_rich] leave raw mode once. *)
Example raw_mode_left_on_quit_and_on_error :
  (let run := with_rich ex_world_quit ex_cfg 5 rich_init in
   snd run = Ok tt /\
   List.length (filter is_raw_mode_enter (trace (fst run))) = 1%nat /\
   List.length (filter is_raw_mode_exit (trace (fst run))) = 1%nat /\
   List.length (filter is_redraw (trace (fst run))) = 3%nat) /\
  (let run := with_rich ex_world_fault ex_cfg 5 rich_init in
   snd run = Raise (Exception "OSError") /\
   List.length (filter is_raw_mode_enter (trace (fst run))) = 1%nat /\
   List.length (filter is_raw_mode_exit (trace (fst run))) = 1%nat) /\
  (let run := with_rich ex_world_ctrl_c ex_cfg 5 rich_init in
   snd run = Ok tt /\
   List.length (filter is_sampling (trace (fst run))) = 1%nat /\
   slept (trace (fst run)) = 0) /\
  (let run := with_rich ex_world_idle ex_cfg 3 rich_init in
   snd run = Running /\
   List.length (filter is_raw_mode_exit (trace (fst run))) = 0%nat /\
   slept (trace (fst run)) = 3000).
Proof. vm_compute. repeat split. Qed.

(** The first frame of a run with the policy that knows only [a]. *)
Lemma policy_is_asked_about_abbreviated_path_witness :
  exists tmp_prefix js table,
    ex_commonpath ["/mnt/b"; "/mnt/a"] = Some tmp_prefix /\
    disks_region (@tick_frame _ ex_collaborators_named ex_cfg_named RTable
                    "/mnt" "/dst" 0 ex_jobs) = RTable table /\
    table_rows table =
      map (fun tmp =>
             [ VStr (ex_abbr_path tmp tmp_prefix);
               VStr (if String.eqb (ex_abbr_path tmp tmp_prefix) "a"
                     then "OK" else "--");
               VStr (ex_phases_str
                       (@from_tmp_phases _ ex_collaborators_named js tmp) 5) ])
          ["/mnt/a"; "/mnt/b"].
Proof.
  apply (proj1 (proj2 (policy_is_asked_about_abbreviated_path
                         (C := ex_collaborators_named)))
           ex_world_quit ex_cfg_named 1%nat
           ([RawModeEnter; LiveStart]
            ++ @tick_updates _ ex_collaborators_named ex_cfg_named RTable
                 "/mnt" "/dst" 0 [] ex_jobs)
           (@tick_frame _ ex_collaborators_named ex_cfg_named RTable
              "/mnt" "/dst" 0 ex_jobs)
           (wait_events ex_world_quit 0 10)).
  vm_compute. reflexivity.
Defined.

(** ** More about the rows and the tables *)

Lemma columns_add_rows {A} (f : A -> list value) (l : list A) (t : Table) :
  columns (fold_left (fun t x => add_row (f x) t) l t) = columns t.
Proof.
  revert t. induction l as [|x l IH]; intros t; simpl; [reflexivity|].
  now rewrite IH.
Qed.

Lemma enumerate_from_fst {A} (l : list A) (start : Z) :
  map fst (enumerate_from start l) =
    map (fun i => start + Z.of_nat i) (seq 0 (List.length l)).
Proof.
  revert start. induction l as [|x l IH]; intros start; simpl; [reflexivity|].
  rewrite IH, <- seq_shift, map_map. f_equal; [f_equal; lia|].
  apply map_ext. intros i. lia.
Qed.

Lemma enumerate_from_length {A} (l : list A) (start : Z) :
  List.length (enumerate_from start l) = List.length l.
Proof.
  revert start. induction l as [|x l IH]; intros start; simpl; [reflexivity|].
  now rewrite IH.
Qed.

(** X1. The jobs table has the fourteen columns [#] and the names of the
    attributes of [JobRow], and one row per element of [jobs_data], in
    order; every row has as many cells as there are columns: its number,
    counted from 0, and then the attributes of the row. *)
Theorem build_jobs_table_rows_and_columns (jobs_data : list JobRow) :
  let table := build_jobs_table jobs_data in
  columns table = "#" :: map metadata_name JobRow_fields /\
  List.length (table_rows table) = List.length jobs_data /\
  Forall (fun cells => List.length cells = List.length (columns table))
         (table_rows table) /\
  map (hd VNone) (table_rows table) =
    map (fun i => VStr (str (VInt (Z.of_nat i)))) (seq 0 (List.length jobs_data)) /\
  map (@tl value) (table_rows table) = map JobRow_astuple jobs_data.
Proof.
  intros table. unfold table. clear table.
  assert (Hc : columns (build_jobs_table jobs_data) =
               "#" :: map metadata_name JobRow_fields).
  { unfold build_jobs_table. now rewrite columns_add_rows. }
  rewrite build_jobs_table_rows, Hc.
  split; [reflexivity|]. split; [|split; [|split]].
  - rewrite length_map. apply enumerate_from_length.
  - apply Forall_map, Forall_forall. intros ir _. reflexivity.
  - rewrite map_map. cbn [hd]. unfold enumerate.
    rewrite <- (map_map fst (fun i => VStr (str (VInt i)))).
    rewrite enumerate_from_fst, map_map. reflexivity.
  - rewrite map_map. cbn [tl]. unfold enumerate.
    rewrite <- (map_map snd JobRow_astuple). now rewrite map_snd_enumerate_from.
Qed.

(** X2. The tmp table has the three columns [tmp], [ready] and
    [phases], and one row of three cells per element of [tmp_data], in
    order: the attributes of that element. *)
Theorem build_tmp_table_rows_and_columns (tmp_data : list TmpRow) :
  let table := build_tmp_table tmp_data in
  columns table = map metadata_name TmpRow_fields /\
  table_rows table = map TmpRow_astuple tmp_data /\
  List.length (table_rows table) = List.length tmp_data /\
  Forall (fun cells => List.length cells = List.length (columns table))
         (table_rows table).
Proof.
  intros table. unfold table. clear table.
  destruct (build_tmp_table_rows tmp_data) as [Hc Hr]. rewrite Hc, Hr.
  split; [reflexivity|]. split; [reflexivity|]. split; [apply length_map|].
  apply Forall_map, Forall_forall. intros r _. reflexivity.
Qed.

Lemma substring_0_length (n : nat) (s : string) :
  String.length (substring 0 n s) = Nat.min n (String.length s).
Proof.
  revert s. induction n as [|n IH]; intros [|c s]; simpl; auto.
Qed.

Lemma substring_0_prefix (n : nat) (s : string) :
  String.prefix (substring 0 n s) s = true.
Proof.
  revert s. induction n as [|n IH]; intros [|c s]; simpl; auto.
  destruct (ascii_dec c c) as [_|N]; [apply IH|now destruct N].
Qed.

Lemma substring_0_all (n : nat) (s : string) :
  (String.length s <= n)%nat -> substring 0 n s = s.
Proof.
  revert s. induction n as [|n IH]; intros [|c s]; simpl; auto.
  - lia.
  - intros Hle. f_equal. apply IH. lia.
Qed.

Section RowFacts.
Context `{C : Collaborators}.

(** X3. The [plot_id] of a row of [from_job] is the plot id of the job
    cut after eight characters: a prefix of it, of length eight or of
    the length of the id when that is less; an id of at most eight
    characters is shown whole. *)
Theorem from_job_plot_id_cut (job : Job) (dst_prefix tmp_prefix : string) :
  exists shown,
    plot_id (from_job job dst_prefix tmp_prefix) = VStr shown /\
    String.prefix shown (job_plot_id job) = true /\
    String.length shown = Nat.min 8 (String.length (job_plot_id job)) /\
    ((String.length (job_plot_id job) <= 8)%nat -> shown = job_plot_id job).
Proof.
  exists (substring 0 8 (job_plot_id job)).
  split; [reflexivity|]. split; [apply substring_0_prefix|].
  split; [apply substring_0_length|apply substring_0_all].
Qed.

End RowFacts.

Lemma str_of_str (v : value) : is_str v = true -> VStr (str v) = v.
Proof. destruct v; simpl; intros Hv; [reflexivity|discriminate..]. Qed.

(** X4. A row whose attributes are strings is what its class makes of
    its own attributes: building a [JobRow] or a [TmpRow] again from the
    tuple of a constructed row changes nothing. *)
Theorem rows_rebuilt_from_their_tuples :
  (forall r : JobRow,
     forallb is_str (JobRow_astuple r) = true ->
     JobRow_cls (plot_id r) (k r) (tmp_path r) (dst r) (wall r) (phase r)
                (tmp_usage r) (pid r) (stat r) (mem r) (user r) (sys r) (io r) = r) /\
  (forall r : TmpRow,
     forallb is_str (TmpRow_astuple r) = true ->
     TmpRow_cls (path r) (ready r) (phases r) = r) /\
  (forall v1 v2 v3 v4 v5 v6 v7 v8 v9 v10 v11 v12 v13,
     let r := JobRow_cls v1 v2 v3 v4 v5 v6 v7 v8 v9 v10 v11 v12 v13 in
     JobRow_cls (plot_id r) (k r) (tmp_path r) (dst r) (wall r) (phase r)
                (tmp_usage r) (pid r) (stat r) (mem r) (user r) (sys r) (io r) = r).
Proof.
  split; [|split].
  - intros [f1 f2 f3 f4 f5 f6 f7 f8 f9 f10 f11 f12 f13] Hstr.
    cbn [JobRow_astuple forallb plot_id k tmp_path dst wall phase tmp_usage pid
         stat mem user sys io] in *.
    repeat (apply andb_true_iff in Hstr; destruct Hstr as [? Hstr]).
    unfold JobRow_cls, row_ib. cbn [converter].
    now rewrite !str_of_str by assumption.
  - intros [f1 f2 f3] Hstr.
    cbn [TmpRow_astuple forallb path ready phases] in *.
    repeat (apply andb_true_iff in Hstr; destruct Hstr as [? Hstr]).
    unfold TmpRow_cls, row_ib. cbn [converter].
    now rewrite !str_of_str by assumption.
  - reflexivity.
Qed.

(** ** The order of the input *)

Lemma Permutation_filter_keeps {A} (p : A -> bool) (l l' : list A) :
  Permutation l l' -> Permutation (filter p l) (filter p l').
Proof.
  induction 1 as [|x l l' _ IH|x y l|l l' l'' _ IH1 _ IH2]; simpl.
  - constructor.
  - destruct (p x); [now constructor|exact IH].
  - destruct (p x), (p y); try reflexivity. apply perm_swap.
  - now rewrite IH1.
Qed.

Lemma filter_key_at_most_one {A} (key : A -> Z) (t : Z) (l : list A) :
  NoDup (map key l) ->
  filter (fun x => key x =? t) l = [] \/
  exists x, filter (fun x => key x =? t) l = [x].
Proof.
  induction l as [|x l IH]; intros Hnd; simpl; [now left|].
  inversion Hnd as [|? ? Hnotin Hnd']. subst.
  destruct (key x =? t) eqn:E; [|now apply IH].
  right. exists x. f_equal.
  destruct (filter (fun x0 => key x0 =? t) l) as [|y rest] eqn:F; [reflexivity|].
  exfalso. apply Hnotin.
  assert (Hy : In y (filter (fun x0 => key x0 =? t) l)) by (rewrite F; now left).
  apply filter_In in Hy. destruct Hy as [Hy Hk].
  replace (key x) with (key y) by lia. now apply in_map.
Qed.

Lemma filter_key_Permutation {A} (key : A -> Z) (t : Z) (l l' : list A) :
  Permutation l l' -> NoDup (map key l) ->
  filter (fun x => key x =? t) l = filter (fun x => key x =? t) l'.
Proof.
  intros Hp Hnd.
  pose proof (Permutation_filter_keeps (fun x => key x =? t) l l' Hp) as Hf.
  destruct (filter_key_at_most_one key t l Hnd) as [E|[x E]]; rewrite E in *.
  - symmetry. now apply Permutation_nil.
  - symmetry. now apply Permutation_length_1_inv.
Qed.

Section InputOrder.
Context `{C : Collaborators}.

Lemma sorted_by_wall (jobs : list Job) :
  Sorted Z.le (map get_time_wall (sorted Z.ltb get_time_wall jobs)) /\
  forall t,
    filter (fun job => get_time_wall job =? t) (sorted Z.ltb get_time_wall jobs) =
    filter (fun job => get_time_wall job =? t) jobs.
Proof.
  split.
  - apply Sorted_map.
    apply Sorted_weaken with (R := key_le Z.ltb get_time_wall).
    + unfold key_le. intros a b. lia.
    + apply sorted_Sorted, Z_ltb_asym.
  - intros t. apply filter_sorted. intros x y Hx Hy. lia.
Qed.

(** X5. When no two jobs have the same wall-clock time, the rows of
    [build_jobs_data] do not depend on the order in which the jobs are
    handed in; and jobs handed in by ascending wall-clock time give their
    rows in that very order. *)
Theorem build_jobs_data_input_order (jobs jobs' : list Job)
    (dst_prefix tmp_prefix : string) :
  (Permutation jobs jobs' -> NoDup (map get_time_wall jobs) ->
   build_jobs_data jobs dst_prefix tmp_prefix =
   build_jobs_data jobs' dst_prefix tmp_prefix) /\
  (Sorted Z.le (map get_time_wall jobs) ->
   build_jobs_data jobs dst_prefix tmp_prefix =
   map (fun job => from_job job dst_prefix tmp_prefix) jobs).
Proof.
  rewrite !build_jobs_data_map.
  destruct (sorted_by_wall jobs) as [Hs Hf].
  destruct (sorted_by_wall jobs') as [Hs' Hf'].
  split.
  - intros Hp Hnd. f_equal.
    apply (stable_sort_unique get_time_wall); auto.
    intros t. rewrite Hf, Hf'. now apply filter_key_Permutation.
  - intros Hasc. f_equal. apply (stable_sort_unique get_time_wall); auto.
Qed.

(** X6. The order in which the tmp directories are configured does not
    show: two configurations with the same tmp directories in different
    orders give the same paths and the same phases, row by row.  (The
    readiness may differ: the policy is handed the configuration.) *)
Theorem build_tmp_data_config_order (jobs : list Job)
    (dir_cfg dir_cfg' : Directories.t) (sched_cfg : Scheduling) (prefix : string) :
  Permutation (Directories.tmp dir_cfg) (Directories.tmp dir_cfg') ->
  map path (build_tmp_data jobs dir_cfg sched_cfg prefix) =
    map path (build_tmp_data jobs dir_cfg' sched_cfg prefix) /\
  map phases (build_tmp_data jobs dir_cfg sched_cfg prefix) =
    map phases (build_tmp_data jobs dir_cfg' sched_cfg prefix).
Proof.
  intros Hp. unfold build_tmp_data. rewrite !map_map.
  assert (Hs : forall d,
            Sorted (fun a b => String.leb a b = true)
              (sorted String.ltb (fun tmp => tmp) (Directories.tmp d))).
  { intros d. apply Sorted_weaken with (R := key_le String.ltb (fun tmp => tmp)).
    - unfold key_le. intros a b. apply string_ltb_leb.
    - apply sorted_Sorted, string_ltb_asym. }
  replace (sorted String.ltb (fun tmp => tmp) (Directories.tmp dir_cfg'))
    with (sorted String.ltb (fun tmp => tmp) (Directories.tmp dir_cfg)).
  - split; reflexivity.
  - apply ascending_permutation_unique; auto.
    rewrite !sorted_Permutation. exact Hp.
Qed.

End InputOrder.

(** The two jobs of the scenario, in either order. *)
Lemma build_jobs_data_input_order_witness :
  build_jobs_data ex_jobs "/dst" "/mnt" = build_jobs_data (rev ex_jobs) "/dst" "/mnt" /\
  build_jobs_data (rev ex_jobs) "/dst" "/mnt" =
    map (fun job => from_job job "/dst" "/mnt") (rev ex_jobs).
Proof.
  split.
  - apply (proj1 (build_jobs_data_input_order ex_jobs (rev ex_jobs) "/dst" "/mnt")).
    + apply Permutation_rev.
    + repeat constructor; simpl; intuition discriminate.
  - apply (proj2 (build_jobs_data_input_order (rev ex_jobs) ex_jobs "/dst" "/mnt")).
    repeat constructor; simpl; lia.
Defined.

(** The two tmp directories of the scenario, configured in either order. *)
Lemma build_tmp_data_config_order_witness :
  map path (build_tmp_data ex_jobs ex_dirs tt "/mnt") =
    map path (build_tmp_data ex_jobs
                (Directories.mk ["/mnt/a"; "/mnt/b"] ["/dst/x"] "/log") tt "/mnt") /\
  map phases (build_tmp_data ex_jobs ex_dirs tt "/mnt") =
    map phases (build_tmp_data ex_jobs
                  (Directories.mk ["/mnt/a"; "/mnt/b"] ["/dst/x"] "/log") tt "/mnt").
Proof.
  apply (build_tmp_data_config_order (C := ex_collaborators)).
  apply perm_swap.
Defined.

(** ** The ways a run can go *)

Section RunShape.
Context `{C : Collaborators}.
Variable w : World.
Variable cfg : Config.

Lemma quiet_S i n : quiet w i (S n) = quiet w i n && quiet_slice w i n.
Proof.
  unfold quiet, range. rewrite seq_S, forallb_app. simpl.
  now rewrite andb_true_r.
Qed.

Lemma quiet_first_loud i n :
  quiet w i n = false ->
  exists x, (x < n)%nat /\ quiet w i x = true /\ quiet_slice w i x = false.
Proof.
  induction n as [|n IH]; [discriminate|].
  rewrite quiet_S. destruct (quiet w i n) eqn:Hq.
  - simpl. intros Hs. exists n. repeat split; auto.
  - intros _. destruct (IH eq_refl) as (x & Hlt & Hx & Hs).
    exists x. repeat split; auto.
Qed.

Lemma quiet_slice_loud i x :
  quiet_slice w i x = false ->
  (exists e, fault w i (SReadKeys x) = Some e) \/ quit_slice w i x = true.
Proof.
  unfold quiet_slice, quit_slice. destruct (fault w i (SReadKeys x)) as [e|].
  - intros _. left. now exists e.
  - intros Hn. right. now apply negb_false_iff.
Qed.

Lemma for_each_read_error i l1 x l2 e s :
  forallb (quiet_slice w i) l1 = true -> fault w i (SReadKeys x) = Some e ->
  for_each (l1 ++ x :: l2) (wait_slice w i) s =
    (log_events
       (flat_map (fun slice => [ReadKeys (keys_read w i slice); Sleep 100]) l1) s,
     Raise e).
Proof.
  revert s. induction l1 as [|y l1 IH]; intros s Hq Hx; simpl.
  - unfold bind at 1. rewrite (wait_slice_fault w _ _ _ _ Hx).
    now rewrite log_events_nil.
  - simpl in Hq. apply andb_true_iff in Hq. destruct Hq as [Hy Hl].
    unfold bind at 1. rewrite (wait_slice_quiet w _ _ _ Hy), (IH _ Hl Hx).
    now rewrite log_events_app.
Qed.

Lemma wait_for_input_read_error i x e s :
  (x < 10)%nat -> quiet w i x = true -> fault w i (SReadKeys x) = Some e ->
  wait_for_input w i s = (log_events (wait_events w i x) s, Raise e).
Proof.
  intros Hlt Hq Hx. unfold wait_for_input. rewrite (range_split 10 x Hlt).
  now apply for_each_read_error.
Qed.

(** Whatever the world, a tick of the polling backend goes one of the
    four ways. *)
Lemma with_rich_tick_run tp dp i s :
  exists evs,
    trace (fst (with_rich_tick w cfg tp dp i s)) = trace s ++ evs /\
    tick_run w cfg RTable tp dp i (jobs s) evs
      (snd (with_rich_tick w cfg tp dp i s)).
Proof.
  destruct (clean_render w i) eqn:Hc.
  - rewrite (with_rich_tick_render w cfg _ _ _ _ Hc).
    destruct (quiet w i 10) eqn:Hq.
    + rewrite (wait_for_input_quiet w _ _ Hq).
      eexists. split; [cbn [fst log_events trace]; rewrite <- app_assoc; reflexivity|].
      now apply tick_whole.
    + destruct (quiet_first_loud i 10 Hq) as (x & Hlt & Hx & Hloud).
      destruct (quiet_slice_loud i x Hloud) as [[e He]|Hquit].
      * rewrite (wait_for_input_read_error _ _ _ _ Hlt Hx He).
        eexists. split; [cbn [fst log_events trace]; rewrite <- app_assoc; reflexivity|].
        now apply tick_read_error.
      * rewrite (wait_for_input_quit w _ _ _ Hlt Hx Hquit).
        eexists. split; [cbn [fst log_events trace]; rewrite <- app_assoc; reflexivity|].
        now apply tick_quit.
  - pose proof Hc as Hc'. unfold clean_render in Hc'.
    unfold with_rich_tick, bind, update, get_running_jobs, call, redraw, raise, ret.
    simpl.
    destruct (fault w i SGetRunningJobs); simpl;
      [eexists; split; [reflexivity|];
       eapply tick_render_error with (rest := [_; _; _]); [exact Hc|reflexivity]|].
    destruct (fault w i SBuildJobsData); simpl;
      [eexists; split; [rewrite <- !app_assoc; reflexivity|];
       eapply tick_render_error with (rest := [_; _]); [exact Hc|reflexivity]|].
    destruct (fault w i SBuildTmpData); simpl;
      [eexists; split; [rewrite <- !app_assoc; reflexivity|];
       eapply tick_render_error with (rest := [_]); [exact Hc|reflexivity]|].
    destruct (fault w i SRedraw); simpl;
      [eexists; split; [rewrite <- !app_assoc; reflexivity|];
       eapply tick_render_error with (rest := []); [exact Hc|reflexivity]|].
    discriminate.
Qed.

Lemma clean_prefix_facts fuel :
  forall i,
    (clean_prefix w fuel i <= fuel)%nat /\
    clean_ticks w (clean_prefix w fuel i) i = true /\
    ((clean_prefix w fuel i < fuel)%nat ->
     clean_render w (clean_prefix w fuel i + i) &&
     quiet w (clean_prefix w fuel i + i) 10 = false).
Proof.
  induction fuel as [|fuel IH]; intros i; simpl.
  - repeat split; auto. lia.
  - destruct (clean_render w i && quiet w i 10) eqn:E.
    + destruct (IH (S i)) as (Hle & Hc & Hstop). simpl. rewrite E, Hc.
      repeat split; [lia|]. intros Hlt.
      rewrite Nat.add_succ_r in Hstop. apply Hstop. lia.
    + simpl. repeat split; auto. lia.
Qed.

(** The loop of the polling backend: whole ticks, then the bound or a
    tick that ends it. *)
Lemma for_count_run tp dp fuel i s :
  let n := clean_prefix w fuel i in
  let run := for_count fuel i (with_rich_tick w cfg tp dp) s in
  (n = fuel /\ snd run = Running /\
   trace (fst run) = trace s ++ ticks_events w cfg RTable tp dp n i (jobs s)) \/
  (exists evs r,
     tick_run w cfg RTable tp dp (n + i) (ticks_jobs w cfg n i (jobs s)) evs r /\
     r <> Ok tt /\ snd run = r /\
     trace (fst run) =
       trace s ++ ticks_events w cfg RTable tp dp n i (jobs s) ++ evs).
Proof.
  intros n run. unfold run. clear run.
  destruct (clean_prefix_facts fuel i) as (Hle & Hclean & Hstop).
  fold n in Hle, Hclean, Hstop. clearbody n.
  assert (Hfc : for_count fuel i (with_rich_tick w cfg tp dp) s =
                for_count (fuel - n) (n + i) (with_rich_tick w cfg tp dp)
                  {| screen := ticks_screen w cfg RTable tp dp n i (screen s) (jobs s);
                     jobs := ticks_jobs w cfg n i (jobs s);
                     trace := trace s ++ ticks_events w cfg RTable tp dp n i (jobs s) |}).
  { replace fuel with (n + (fuel - n))%nat at 1 by lia.
    now apply for_count_clean. }
  rewrite Hfc. clear Hfc.
  destruct (fuel - n)%nat as [|m] eqn:Em.
  - left. repeat split. lia.
  - right. assert (Hlt : (n < fuel)%nat) by lia. specialize (Hstop Hlt).
    cbn [for_count]. unfold bind at 1 2.
    match goal with |- context [with_rich_tick w cfg tp dp (n + i) ?st] =>
      destruct (with_rich_tick_run tp dp (n + i) st) as (evs & Ht & Hrun);
      destruct (with_rich_tick w cfg tp dp (n + i) st) as [s' r]
    end.
    cbn [fst snd jobs trace] in Ht, Hrun.
    exists evs, r. split; [exact Hrun|].
    assert (Hr : r <> Ok tt).
    { intros ->. inversion Hrun as [Hc Hq| | |]. rewrite Hc, Hq in Hstop. discriminate. }
    split; [exact Hr|].
    destruct r as [[]| | | |]; cbn [fst snd];
      try (split; [reflexivity|rewrite Ht, <- app_assoc; reflexivity]).
    now destruct Hr.
Qed.

(** Whatever the world and the bound, [with_rich] goes one of the three
    ways. *)
Lemma with_rich_run fuel :
  exists tp dp,
    rich_run w cfg RTable tp dp
      (trace (fst (with_rich w cfg fuel rich_init)))
      (snd (with_rich w cfg fuel rich_init)).
Proof.
  pose proof (with_rich_not_configured w cfg fuel) as Hnc.
  destruct (commonpath (Directories.tmp (directories cfg))) as [tp|] eqn:Et;
    [destruct (commonpath (Directories.dst (directories cfg))) as [dp|] eqn:Ed|].
  2, 3: destruct Hnc as [Hnc _]; rewrite Hnc; exists "", "";
        apply rich_not_started; now left.
  exists tp, dp. rewrite (with_rich_configured w cfg tp dp fuel (conj Et Ed)).
  unfold def. destruct (raw_mode_fault w) as [e|].
  { rewrite with_Some. apply rich_not_started. now left. }
  rewrite with_None. destruct (live_fault w) as [e|].
  { rewrite with_Some. apply rich_not_started. now right. }
  rewrite with_None.
  destruct (clean_prefix_facts fuel 0) as (_ & Hclean & _).
  destruct (for_count_run tp dp fuel 0
              (log_event LiveStart (log_event RawModeEnter rich_init)))
    as [(_ & Hr & Ht)|(evs & r & Hrun & Hne & Hr & Ht)];
    destruct (for_count fuel 0 (with_rich_tick w cfg tp dp)
                (log_event LiveStart (log_event RawModeEnter rich_init)))
      as [s' r'];
    cbn [fst snd] in Hr, Ht; subst r'.
  - cbn [fst snd]. rewrite Ht. apply rich_running. exact Hclean.
  - rewrite Nat.add_0_r in Hrun.
    assert (Hshape :
      rich_run w cfg RTable tp dp
        ([RawModeEnter; LiveStart]
         ++ ticks_events w cfg RTable tp dp (clean_prefix w fuel 0) 0 []
         ++ evs ++ [LiveStop; RawModeExit])
        (match r with Return_ => Ok tt | _ => r end))
      by (apply rich_ended; assumption).
    destruct r as [[]| | | |]; cbn [fst snd log_event trace]; rewrite Ht;
      cbn [log_event rich_init trace jobs app] in *;
      rewrite <- ?app_assoc; cbn [app];
      first [exact Hshape|inversion Hrun].
Qed.

End RunShape.

(** ** What the events of a run add up to *)

Lemma str_int_inj (a b : Z) : str (VInt a) = str (VInt b) -> a = b.
Proof.
  simpl. intros Heq. apply DecimalZ.to_int_inj.
  assert (Hnn : forall z, Z.to_int z <> Decimal.Pos Decimal.Nil /\
                          Z.to_int z <> Decimal.Neg Decimal.Nil).
  { intros [|p|p]; simpl; split; try discriminate;
      intros [= Hp]; now apply DecimalPos.Unsigned.to_uint_nonnil in Hp. }
  destruct (Hnn a) as [Ha1 Ha2]. destruct (Hnn b) as [Hb1 Hb2].
  pose proof (NilZero.isi (Z.to_int a) Ha1 Ha2) as Ia.
  pose proof (NilZero.isi (Z.to_int b) Hb1 Hb2) as Ib.
  rewrite Heq in Ia. rewrite Ia in Ib. now injection Ib.
Qed.

Lemma tick_header_inj (i j : nat) : tick_header i = tick_header j -> i = j.
Proof.
  unfold tick_header. intros [= Heq]. apply str_int_inj in Heq. lia.
Qed.

Section EventSums.
Context `{C : Collaborators}.
Variable w : World.
Variable cfg : Config.
Variable wrap : Table -> renderable.
Variables tp dp : string.

Lemma slept_app (a b : list event) : slept (a ++ b) = slept a + slept b.
Proof.
  induction a as [|ev a IH]; simpl; [reflexivity|].
  destruct ev; rewrite ?IH; lia.
Qed.

Lemma redraw_headers_app (a b : list event) :
  redraw_headers (a ++ b) = redraw_headers a ++ redraw_headers b.
Proof.
  induction a as [|ev a IH]; simpl; [reflexivity|].
  destruct ev; rewrite ?IH; reflexivity.
Qed.

Lemma redraw_headers_wait_events i n : redraw_headers (wait_events w i n) = [].
Proof.
  unfold wait_events, range. generalize 0%nat.
  induction n as [|n IH]; intros a; [reflexivity|].
  cbn [seq flat_map app redraw_headers]. apply IH.
Qed.

Lemma redraw_headers_render_events i cached :
  redraw_headers (render_events w cfg wrap tp dp i cached) = [tick_header i].
Proof. reflexivity. Qed.

Lemma slept_render_events i cached :
  slept (render_events w cfg wrap tp dp i cached) = 0.
Proof. reflexivity. Qed.

Lemma redraw_headers_ticks_events n :
  forall i cached,
    redraw_headers (ticks_events w cfg wrap tp dp n i cached) =
      map tick_header (seq i n).
Proof.
  induction n as [|n IH]; intros i cached; [reflexivity|].
  cbn [ticks_events seq map].
  rewrite !redraw_headers_app, redraw_headers_render_events,
    redraw_headers_wait_events, IH.
  reflexivity.
Qed.

Lemma slept_ticks_events n :
  forall i cached,
    slept (ticks_events w cfg wrap tp dp n i cached) = 1000 * Z.of_nat n.
Proof.
  induction n as [|n IH]; intros i cached; [reflexivity|].
  cbn [ticks_events].
  rewrite !slept_app, slept_render_events, slept_wait_events, IH. lia.
Qed.

Lemma written_events_sums (evs : list event) :
  forallb (fun ev => match ev with
                     | Update _ _ | GetRunningJobs _ _ _ => true
                     | _ => false
                     end) evs = true ->
  redraw_headers evs = [] /\ slept evs = 0.
Proof.
  induction evs as [|ev evs IH]; simpl; [auto|].
  destruct ev; try discriminate; exact IH.
Qed.

Lemma updates_prefix_sums i cached js (evs rest : list event) :
  tick_updates cfg wrap tp dp i cached js = evs ++ rest ->
  redraw_headers evs = [] /\ slept evs = 0.
Proof.
  intros Heq. apply written_events_sums.
  assert (Hall : forallb (fun ev => match ev with
                                    | Update _ _ | GetRunningJobs _ _ _ => true
                                    | _ => false
                                    end) (evs ++ rest) = true)
    by (rewrite <- Heq; reflexivity).
  rewrite forallb_app in Hall. now apply andb_true_iff in Hall.
Qed.

End EventSums.

(** ** More about the loops *)

Section RunFacts.
Context `{C : Collaborators}.
Variable w : World.
Variable cfg : Config.

(** X7. [with_rich] returns normally for one reason only: the last thing
    it did in its loop was to read keys among which there was [q] or
    Control-C; after that read it only stops the live display and leaves
    raw mode. *)
Theorem with_rich_returns_only_on_quit (fuel : nat) :
  snd (with_rich w cfg fuel rich_init) = Ok tt ->
  exists pre keys,
    trace (fst (with_rich w cfg fuel rich_init)) =
      pre ++ [ReadKeys keys; LiveStop; RawModeExit] /\
    existsb in_quit_keys keys = true.
Proof.
  destruct (with_rich_run w cfg fuel) as (tp & dp & Hrun).
  destruct Hrun as [evs e _|n _|n evs r _ Htick Hne]; try discriminate.
  destruct r as [[]| | | |]; try discriminate; [now destruct Hne|].
  intros _. inversion Htick as [|x Hc Hlt Hq Hquit| |]. subst.
  exists ([RawModeEnter; LiveStart]
          ++ ticks_events w cfg RTable tp dp n 0 []
          ++ render_events w cfg RTable tp dp n (ticks_jobs w cfg n 0 [])
          ++ wait_events w n x),
         (keys_read w n x).
  split; [now rewrite <- !app_assoc|].
  unfold quit_slice in Hquit. now destruct (fault w n (SReadKeys x)).
Qed.

(** X8. The frames of a run of [with_rich] are numbered: the headers of
    the redraws are the decimal numbers 0, 1, 2, ... in this order, one
    per tick and no two alike. *)
Theorem with_rich_redraws_are_numbered (fuel : nat) :
  exists m,
    redraw_headers (trace (fst (with_rich w cfg fuel rich_init))) =
      map tick_header (seq 0 m) /\
    NoDup (redraw_headers (trace (fst (with_rich w cfg fuel rich_init)))).
Proof.
  assert (Hnd : forall m, NoDup (map tick_header (seq 0 m))).
  { intros m. apply Finite.Injective_map_NoDup; [|apply seq_NoDup].
    intros i j. apply tick_header_inj. }
  assert (Hm : exists m,
            redraw_headers (trace (fst (with_rich w cfg fuel rich_init))) =
            map tick_header (seq 0 m)).
  { destruct (with_rich_run w cfg fuel) as (tp & dp & Hrun).
    destruct Hrun as [evs e [->| ->]|n _|n evs r _ Htick Hne].
    - now exists 0%nat.
    - now exists 0%nat.
    - exists n. rewrite redraw_headers_app, redraw_headers_ticks_events. reflexivity.
    - rewrite !redraw_headers_app, redraw_headers_ticks_events. cbn [redraw_headers app].
      rewrite app_nil_r.
      destruct Htick as [_ _|x _ _ _ _|x e _ _ _ _|evs rest e _ Hpre].
      + now destruct Hne.
      + exists (S n). rewrite !redraw_headers_app, redraw_headers_wait_events.
        cbn [redraw_headers app]. now rewrite seq_S, map_app.
      + exists (S n). rewrite !redraw_headers_app, redraw_headers_wait_events.
        cbn [redraw_headers app]. now rewrite seq_S, map_app.
      + exists n. destruct (updates_prefix_sums _ _ _ _ _ _ _ _ _ Hpre) as [-> _].
        now rewrite app_nil_r. }
  destruct Hm as [m Hm]. exists m. split; [exact Hm|]. rewrite Hm. apply Hnd.
Qed.

(** X9. [with_rich] sleeps at most one second per frame: the time slept
    in a run is at most 1000 ms times the number of its redraws. *)
Theorem with_rich_sleeps_a_second_per_redraw (fuel : nat) :
  0 <= slept (trace (fst (with_rich w cfg fuel rich_init))) <=
  1000 * Z.of_nat
    (List.length (redraw_headers (trace (fst (with_rich w cfg fuel rich_init))))).
Proof.
  destruct (with_rich_run w cfg fuel) as (tp & dp & Hrun).
  destruct Hrun as [evs e [->| ->]|n _|n evs r _ Htick Hne].
  - simpl. lia.
  - simpl. lia.
  - rewrite slept_app, redraw_headers_app, slept_ticks_events,
      redraw_headers_ticks_events, length_app, length_map, length_seq.
    cbn [slept redraw_headers List.length]. lia.
  - rewrite !slept_app, !redraw_headers_app, slept_ticks_events,
      redraw_headers_ticks_events, !length_app, length_map, length_seq.
    cbn [slept redraw_headers List.length].
    destruct Htick as [_ _|x _ Hlt _ _|x e _ Hlt _ _|evs rest e _ Hpre].
    + now destruct Hne.
    + rewrite !slept_app, !redraw_headers_app, slept_wait_events,
        redraw_headers_wait_events, slept_render_events, redraw_headers_render_events.
      cbn [slept redraw_headers List.length app]. lia.
    + rewrite !slept_app, !redraw_headers_app, slept_wait_events,
        redraw_headers_wait_events, slept_render_events, redraw_headers_render_events.
      cbn [slept redraw_headers List.length app]. lia.
    + destruct (updates_prefix_sums _ _ _ _ _ _ _ _ _ Hpre) as [-> ->].
      cbn [List.length]. lia.
Qed.

End RunFacts.

Section MoreRunFacts.
Context `{C : Collaborators}.
Variable w : World.
Variable cfg : Config.

(** X10. Without a quit key and without an exception [with_rich] does
    not end: whatever the bound, it is still running after that many
    whole ticks, each with its redraw and its second of sleep. *)
Theorem with_rich_keeps_running (tmp_prefix dst_prefix : string) (fuel : nat) :
  starts w cfg tmp_prefix dst_prefix -> clean_ticks w fuel 0 = true ->
  with_rich w cfg fuel rich_init =
    ({| screen := ticks_screen w cfg RTable tmp_prefix dst_prefix fuel 0
                    (screen rich_init) [];
        jobs := ticks_jobs w cfg fuel 0 [];
        trace := [RawModeEnter; LiveStart]
                 ++ ticks_events w cfg RTable tmp_prefix dst_prefix fuel 0 [] |},
     Running) /\
  redraw_headers (ticks_events w cfg RTable tmp_prefix dst_prefix fuel 0 []) =
    map tick_header (seq 0 fuel) /\
  slept (ticks_events w cfg RTable tmp_prefix dst_prefix fuel 0 []) =
    1000 * Z.of_nat fuel.
Proof.
  intros (Hcfg & Hraw & Hlive) Hclean.
  split; [|split; [apply redraw_headers_ticks_events|apply slept_ticks_events]].
  rewrite (with_rich_configured w cfg tmp_prefix dst_prefix fuel Hcfg).
  unfold def. rewrite Hraw, with_None, Hlive, with_None.
  replace fuel with (fuel + 0)%nat at 1 by lia.
  rewrite (for_count_clean w cfg tmp_prefix dst_prefix fuel _ _ _ Hclean).
  cbn [for_count]. unfold log_event, rich_init. cbn [screen jobs trace].
  rewrite <- !app_assoc. reflexivity.
Qed.

Lemma with_prompt_toolkit_tick_cancelled tp dp i s :
  clean_render w i = true -> cancelled w i = true ->
  with_prompt_toolkit_tick w cfg tp dp i s =
    ({| screen := tick_frame cfg capture_rich tp dp i
                    (running_jobs w i (logdir cfg) (jobs s));
        jobs := running_jobs w i (logdir cfg) (jobs s);
        trace := trace s ++ render_events w cfg capture_rich tp dp i (jobs s)
                         ++ [Suspend 1000] |}, Cancel).
Proof.
  intros Hc Hn. rewrite (with_prompt_toolkit_tick_render w cfg _ _ _ _ Hc).
  unfold anyio_sleep, bind, emit, log_event. simpl. rewrite Hn. simpl.
  now rewrite <- app_assoc.
Qed.

(** X11. The cooperative backend ends when its scope is cancelled, and
    only where it suspends: when the scope is cancelled during tick [n],
    that tick is still sampled, written and redrawn; the loop stops at
    its [anyio.sleep], the task group is left and [with_prompt_toolkit]
    ends normally. *)
Theorem with_prompt_toolkit_ends_on_cancel (tmp_prefix dst_prefix : string)
    (n fuel : nat) :
  configured cfg tmp_prefix dst_prefix ->
  coop_clean_ticks w n 0 = true -> clean_render w n = true ->
  cancelled w n = true -> (n < fuel)%nat ->
  with_prompt_toolkit w cfg fuel prompt_toolkit_init =
    ({| screen := tick_frame cfg capture_rich tmp_prefix dst_prefix n
                    (running_jobs w n (logdir cfg) (ticks_jobs w cfg n 0 []));
        jobs := running_jobs w n (logdir cfg) (ticks_jobs w cfg n 0 []);
        trace := [TaskGroupEnter; AddKeyBinding "q"; AddKeyBinding "c-c"; StartSoon]
                 ++ coop_ticks_events w cfg capture_rich tmp_prefix dst_prefix n 0 []
                 ++ render_events w cfg capture_rich tmp_prefix dst_prefix n
                      (ticks_jobs w cfg n 0 [])
                 ++ [Suspend 1000; TaskGroupExit] |},
     Ok tt).
Proof.
  intros Hcfg Hclean Hrender Hcancel Hlt.
  rewrite (with_prompt_toolkit_configured w cfg tmp_prefix dst_prefix fuel Hcfg).
  unfold def, task_group, bind at 1 2 3, emit.
  replace fuel with (n + S (fuel - S n))%nat by lia.
  rewrite coop_for_count_clean by assumption. rewrite Nat.add_0_r.
  cbn [for_count]. unfold bind at 1.
  rewrite (with_prompt_toolkit_tick_cancelled tmp_prefix dst_prefix n _ Hrender Hcancel).
  unfold log_event, prompt_toolkit_init. cbn [screen jobs trace].
  rewrite <- !app_assoc. reflexivity.
Qed.

Lemma tick_event_inside_live (ev : event) :
  is_tick_event ev = true -> inside_live ev = true.
Proof. destruct ev; simpl; auto; discriminate. Qed.

(** X12. The live display is nested in raw mode.  When it cannot be
    started, raw mode is left again at once and [with_rich] ends with the
    exception; otherwise it is started right after raw mode is entered
    and, when the run has ended, stopped right before raw mode is left,
    and neither happens in between. *)
Theorem live_display_nested_in_raw_mode (tmp_prefix dst_prefix : string)
    (fuel : nat) :
  configured cfg tmp_prefix dst_prefix -> raw_mode_fault w = None ->
  (forall e, live_fault w = Some e ->
     with_rich w cfg fuel rich_init =
       (log_events [RawModeEnter; RawModeExit] rich_init, Raise e)) /\
  (live_fault w = None ->
     exists mid,
       all_events inside_live mid /\
       trace (fst (with_rich w cfg fuel rich_init)) =
         RawModeEnter :: LiveStart :: mid ++
           match snd (with_rich w cfg fuel rich_init) with
           | Running => []
           | _ => [LiveStop; RawModeExit]
           end).
Proof.
  intros Hcfg Hraw.
  rewrite (with_rich_configured w cfg tmp_prefix dst_prefix fuel Hcfg).
  unfold def. rewrite Hraw, with_None. split.
  - intros e ->. rewrite with_Some. reflexivity.
  - intros ->. rewrite with_None.
    assert (Hm : emits (all_events inside_live)
                   (for_count fuel 0 (with_rich_tick w cfg tmp_prefix dst_prefix))).
    { apply emits_for_count; [apply all_events_closed|]. intros j.
      apply emits_with_rich_tick, tick_event_inside_live. }
    destruct (Hm (log_event LiveStart (log_event RawModeEnter rich_init)))
      as (mid & Ht & Hmid).
    destruct (for_count fuel 0 (with_rich_tick w cfg tmp_prefix dst_prefix)
                (log_event LiveStart (log_event RawModeEnter rich_init))) as [s' r].
    simpl in Ht. exists mid. split; [exact Hmid|].
    destruct r; cbn [fst snd log_event trace]; rewrite Ht; simpl;
      rewrite <- ?app_assoc, ?app_nil_r; reflexivity.
Qed.

End MoreRunFacts.

(** ** The job cache *)

Section CacheFacts.
Context `{C : Collaborators}.
Variable w : World.
Variable cfg : Config.

Lemma last_sample_app (cached : list Job) (a b : list event) :
  last_sample cached (a ++ b) = last_sample (last_sample cached a) b.
Proof.
  revert cached. induction a as [|ev a IH]; intros cached; simpl; [reflexivity|].
  destruct ev; apply IH.
Qed.

Lemma samples_chained_app (l : string) (cached : list Job) (a b : list event) :
  samples_chained l cached a -> samples_chained l (last_sample cached a) b ->
  samples_chained l cached (a ++ b).
Proof.
  revert cached. induction a as [|ev a IH]; intros cached Ha Hb; simpl in *;
    [exact Hb|].
  destruct ev; try (now apply IH).
  destruct Ha as (Hl & Hc & Ha). repeat split; auto.
Qed.

Lemma cache_inv_log (l : string) (ev : event) (s : State) :
  is_sampling ev = false -> cache_inv l s -> cache_inv l (log_event ev s).
Proof.
  intros Hev [Hch Hlast]. unfold cache_inv, log_event. cbn [trace jobs].
  split.
  - apply samples_chained_app; [exact Hch|]. destruct ev; simpl; auto; discriminate.
  - rewrite last_sample_app, Hlast. destruct ev; simpl; auto; discriminate.
Qed.

Section Preserved.
Variable I : State -> Prop.

Lemma preserves_ret {A} (a : A) : preserves I (ret a).
Proof. intros s Hs. exact Hs. Qed.

Lemma preserves_raise {A} (e : exn) : preserves I (@raise _ A e).
Proof. intros s Hs. exact Hs. Qed.

Lemma preserves_return {A} : preserves I (@return_ _ A).
Proof. intros s Hs. exact Hs. Qed.

Lemma preserves_call {A} (flt : option exn) (a : A) : preserves I (call flt a).
Proof. destruct flt; [apply preserves_raise|apply preserves_ret]. Qed.

Lemma preserves_bind {A B} (m : M A) (f : A -> M B) :
  preserves I m -> (forall a, preserves I (f a)) -> preserves I (bind m f).
Proof.
  intros Hm Hf s Hs. unfold bind. specialize (Hm s Hs).
  destruct (m s) as [s1 [a| | | |]]; simpl in *; auto.
  now apply Hf.
Qed.

Lemma preserves_for_each {A} (l : list A) (body : A -> M unit) :
  (forall x, preserves I (body x)) -> preserves I (for_each l body).
Proof.
  intros Hb. induction l as [|x l IH]; simpl.
  - apply preserves_ret.
  - apply preserves_bind; auto.
Qed.

Lemma preserves_for_count (fuel i : nat) (body : nat -> M unit) :
  (forall j, preserves I (body j)) -> preserves I (for_count fuel i body).
Proof.
  intros Hb. revert i. induction fuel as [|fuel IH]; intros i; simpl.
  - intros s Hs. exact Hs.
  - apply preserves_bind; auto.
Qed.

Lemma preserves_def {A} (body : M A) : preserves I body -> preserves I (def body).
Proof.
  intros Hb s Hs. unfold def. specialize (Hb s Hs).
  destruct (body s) as [s' [a| | | |]]; exact Hb.
Qed.

Hypothesis I_log :
  forall ev s, is_sampling ev = false -> I s -> I (log_event ev s).

Lemma preserves_emit (ev : event) : is_sampling ev = false -> preserves I (emit ev).
Proof. intros Hev s Hs. now apply I_log. Qed.

Lemma preserves_with {A} flt (enter exit : event) (body : M A) :
  is_sampling enter = false -> is_sampling exit = false ->
  preserves I body -> preserves I (with_ flt enter exit body).
Proof.
  intros He Hx Hb s Hs. unfold with_. destruct flt; [exact Hs|].
  specialize (Hb (log_event enter s) (I_log _ _ He Hs)).
  destruct (body (log_event enter s)) as [s' r]. simpl in Hb.
  destruct r; simpl; auto.
Qed.

Lemma preserves_task_group {A} (body : M A) :
  preserves I body -> preserves I (task_group body).
Proof.
  intros Hb s Hs. unfold task_group.
  specialize (Hb (log_event TaskGroupEnter s) (I_log TaskGroupEnter s eq_refl Hs)).
  destruct (body (log_event TaskGroupEnter s)) as [s' r]. simpl in Hb.
  destruct r; simpl; auto.
Qed.

End Preserved.

Local Notation "'inv'" := (cache_inv (logdir cfg)).

Lemma preserves_update r x : preserves inv (update r x).
Proof.
  intros s Hs. unfold update. cbn [fst].
  exact (cache_inv_log _ (Update r x)
           {| screen := screen_update r x (screen s); jobs := jobs s; trace := trace s |}
           eq_refl Hs).
Qed.

Lemma preserves_get_running_jobs i : preserves inv (get_running_jobs w cfg i).
Proof.
  intros s [Hch Hlast]. unfold get_running_jobs.
  destruct (fault w i SGetRunningJobs); [now split|].
  unfold cache_inv, log_event. cbn [fst trace jobs]. split.
  - apply samples_chained_app; [exact Hch|]. rewrite Hlast. simpl. auto.
  - rewrite last_sample_app. reflexivity.
Qed.

Lemma preserves_redraw i : preserves inv (redraw w i).
Proof.
  intros s Hs. unfold redraw. destruct (fault w i SRedraw); [exact Hs|].
  now apply cache_inv_log.
Qed.

Lemma preserves_wait_for_input i : preserves inv (wait_for_input w i).
Proof.
  apply preserves_for_each. intros slice. unfold wait_slice, read_keys.
  apply preserves_bind.
  - destruct (fault w i (SReadKeys slice)); [apply preserves_raise|].
    apply preserves_bind; [|intros _; apply preserves_ret].
    apply preserves_emit; [apply cache_inv_log|reflexivity].
  - intros ks. destruct (existsb in_quit_keys ks); [apply preserves_return|].
    apply preserves_emit; [apply cache_inv_log|reflexivity].
Qed.

Lemma preserves_anyio_sleep i ms : preserves inv (anyio_sleep w i ms).
Proof.
  apply preserves_bind.
  - apply preserves_emit; [apply cache_inv_log|reflexivity].
  - intros _. destruct (cancelled w i); [|apply preserves_ret].
    intros s Hs. exact Hs.
Qed.

Ltac preserves_step :=
  match goal with
  | |- forall _, preserves _ _ => intro
  | |- preserves _ (update _ _) => apply preserves_update
  | |- preserves _ (get_running_jobs _ _ _) => apply preserves_get_running_jobs
  | |- preserves _ (call _ _) => apply preserves_call
  | |- preserves _ (redraw _ _) => apply preserves_redraw
  | |- preserves _ (wait_for_input _ _) => apply preserves_wait_for_input
  | |- preserves _ (anyio_sleep _ _ _) => apply preserves_anyio_sleep
  | |- preserves _ (os_path_commonpath _) =>
      unfold os_path_commonpath;
      match goal with
      | |- context [commonpath ?l] => destruct (commonpath l)
      end; [apply preserves_ret|apply preserves_raise]
  | |- preserves _ (emit _) => apply preserves_emit; [apply cache_inv_log|reflexivity]
  | |- preserves _ (for_count _ _ _) => apply preserves_for_count
  | |- preserves _ (with_ _ _ _ _) =>
      apply preserves_with; [apply cache_inv_log|reflexivity|reflexivity|]
  | |- preserves _ (task_group _) => apply preserves_task_group; [apply cache_inv_log|]
  | |- preserves _ (def _) => apply preserves_def
  | |- preserves _ (bind _ _) => apply preserves_bind
  end.

(** X13. The job cache is threaded through the ticks.  In every run of
    either loop each call of [get_running_jobs] asks about the configured
    log directory and is handed, as [cached_jobs], what the call before
    it returned, the first one the empty list; and the local [jobs] is
    always what the last call returned. *)
Theorem samplings_are_chained (fuel : nat) :
  cache_inv (logdir cfg) (fst (with_rich w cfg fuel rich_init)) /\
  cache_inv (logdir cfg) (fst (with_prompt_toolkit w cfg fuel prompt_toolkit_init)).
Proof.
  split.
  - assert (Hp : preserves inv (with_rich w cfg fuel)).
    { unfold with_rich, with_rich_tick. repeat preserves_step. }
    apply Hp. now split.
  - assert (Hp : preserves inv (with_prompt_toolkit w cfg fuel)).
    { unfold with_prompt_toolkit, with_prompt_toolkit_tick. repeat preserves_step. }
    apply Hp. now split.
Qed.

End CacheFacts.

(** ** How the backends wait *)

Section EventClasses.
Context `{C : Collaborators}.
Variable w : World.
Variable cfg : Config.
Variable P : event -> bool.
Hypothesis P_update : forall r x, P (Update r x) = true.
Hypothesis P_sampling : forall l c js, P (GetRunningJobs l c js) = true.
Hypothesis P_redraw : forall frame, P (Redraw frame) = true.

Lemma emits_one (ev : event) : P ev = true -> emits (all_events P) (emit ev).
Proof.
  intros Hev. apply emits_emit. unfold all_events. simpl. now rewrite Hev.
Qed.

Lemma emits_update_in r x : emits (all_events P) (update r x).
Proof.
  intros s. exists [Update r x]. split; [reflexivity|].
  unfold all_events. simpl. now rewrite P_update.
Qed.

Lemma emits_get_running_jobs_in i : emits (all_events P) (get_running_jobs w cfg i).
Proof.
  intros s. unfold get_running_jobs. destruct (fault w i SGetRunningJobs).
  - exists []. simpl. now rewrite app_nil_r.
  - eexists [_]. split; [reflexivity|].
    unfold all_events. simpl. now rewrite P_sampling.
Qed.

Lemma emits_redraw_in i : emits (all_events P) (redraw w i).
Proof.
  intros s. unfold redraw. destruct (fault w i SRedraw).
  - exists []. simpl. now rewrite app_nil_r.
  - eexists [_]. split; [reflexivity|].
    unfold all_events. simpl. now rewrite P_redraw.
Qed.

Lemma emits_wait_for_input_in i :
  (forall ks, P (ReadKeys ks) = true) -> P (Sleep 100) = true ->
  emits (all_events P) (wait_for_input w i).
Proof.
  intros Hrk Hsl. apply emits_for_each; [apply all_events_closed|]. intros slice.
  unfold wait_slice, read_keys.
  apply emits_bind; [apply all_events_closed| |].
  - destruct (fault w i (SReadKeys slice)); [apply emits_raise, all_events_closed|].
    apply emits_bind; [apply all_events_closed|now apply emits_one|].
    intros _. apply emits_ret, all_events_closed.
  - intros ks. destruct (existsb in_quit_keys ks).
    + apply emits_return, all_events_closed.
    + now apply emits_one.
Qed.

Lemma emits_anyio_sleep_in i ms :
  P (Suspend ms) = true -> emits (all_events P) (anyio_sleep w i ms).
Proof.
  intros Hs. apply emits_bind; [apply all_events_closed|now apply emits_one|].
  intros _. destruct (cancelled w i); [|apply emits_ret, all_events_closed].
  intros s. exists []. simpl. now rewrite app_nil_r.
Qed.

Lemma emits_os_path_commonpath paths :
  emits (all_events P) (os_path_commonpath paths).
Proof.
  unfold os_path_commonpath. destruct (commonpath paths).
  - apply emits_ret, all_events_closed.
  - apply emits_raise, all_events_closed.
Qed.

End EventClasses.

Section WaitingFacts.
Context `{C : Collaborators}.
Variable w : World.
Variable cfg : Config.

Ltac class_step :=
  match goal with
  | |- forall _, emits _ _ => intro
  | |- emits _ (update _ _) => apply emits_update_in; reflexivity
  | |- emits _ (get_running_jobs _ _ _) => apply emits_get_running_jobs_in; reflexivity
  | |- emits _ (call _ _) => apply emits_call, all_events_closed
  | |- emits _ (redraw _ _) => apply emits_redraw_in; reflexivity
  | |- emits _ (wait_for_input _ _) => apply emits_wait_for_input_in; reflexivity
  | |- emits _ (anyio_sleep _ _ _) => apply emits_anyio_sleep_in; reflexivity
  | |- emits _ (os_path_commonpath _) => apply emits_os_path_commonpath
  | |- emits _ (emit _) => apply emits_one; reflexivity
  | |- emits _ (for_count _ _ _) => apply emits_for_count; [apply all_events_closed|]
  | |- emits _ (with_ _ _ _ _) =>
      apply emits_with; [apply all_events_closed|reflexivity|reflexivity|]
  | |- emits _ (task_group _) =>
      apply emits_task_group; [apply all_events_closed|reflexivity|reflexivity|]
  | |- emits _ (def _) => apply emits_def
  | |- emits _ (bind _ _) => apply emits_bind; [apply all_events_closed| |]
  end.

(** X14. Each backend waits in its own way only.  The polling backend
    sleeps in slices of 100 ms and never suspends; the cooperative
    backend suspends for 1000 ms at a time and never sleeps, and its loop
    neither reads keys nor enters raw mode or a live display. *)
Theorem backends_wait_in_their_own_way (fuel : nat) :
  all_events is_polling_event (trace (fst (with_rich w cfg fuel rich_init))) /\
  all_events is_cooperative_event
    (trace (fst (with_prompt_toolkit w cfg fuel prompt_toolkit_init))).
Proof.
  split.
  - assert (Hm : emits (all_events is_polling_event) (with_rich w cfg fuel)).
    { unfold with_rich, with_rich_tick. repeat class_step. }
    destruct (Hm rich_init) as (evs & Ht & Hall). now rewrite Ht.
  - assert (Hm : emits (all_events is_cooperative_event)
                   (with_prompt_toolkit w cfg fuel)).
    { unfold with_prompt_toolkit, with_prompt_toolkit_tick. repeat class_step. }
    destruct (Hm prompt_toolkit_init) as (evs & Ht & Hall). now rewrite Ht.
Qed.

Lemma tick_frame_tables (wrap : Table -> renderable) tp dp i js :
  exists jobs_table tmp_table,
    header_region (tick_frame cfg wrap tp dp i js) = tick_header i /\
    plots_region (tick_frame cfg wrap tp dp i js) = wrap jobs_table /\
    disks_region (tick_frame cfg wrap tp dp i js) = wrap tmp_table /\
    List.length (table_rows jobs_table) = List.length js /\
    List.length (table_rows tmp_table) =
      List.length (Directories.tmp (directories cfg)).
Proof.
  do 2 eexists. repeat split.
  - rewrite build_jobs_table_rows, length_map. unfold enumerate.
    rewrite enumerate_from_length, build_jobs_data_map, length_map.
    apply sorted_length.
  - destruct (build_tmp_table_rows
                (build_tmp_data js (directories cfg) (scheduling cfg) tp)) as [_ ->].
    unfold build_tmp_data. rewrite !length_map. apply sorted_length.
Qed.

(** X15. What a frame shows.  In every frame of either loop the header
    is the number of the tick, the jobs table has one row for each job
    that the sampling of that tick returned, and the tmp table has one
    row for each configured tmp directory; that sampling is among the
    events before the redraw. *)
Theorem frames_show_every_job_and_directory (fuel : nat) :
  (forall pre frame post,
     trace (fst (with_rich w cfg fuel rich_init)) = pre ++ Redraw frame :: post ->
     exists i cached jobs_table tmp_table,
       In (GetRunningJobs (logdir cfg) cached
             (running_jobs w i (logdir cfg) cached)) pre /\
       header_region frame = tick_header i /\
       plots_region frame = RTable jobs_table /\
       disks_region frame = RTable tmp_table /\
       List.length (table_rows jobs_table) =
         List.length (running_jobs w i (logdir cfg) cached) /\
       List.length (table_rows tmp_table) =
         List.length (Directories.tmp (directories cfg))) /\
  (forall pre frame post,
     trace (fst (with_prompt_toolkit w cfg fuel prompt_toolkit_init)) =
       pre ++ Redraw frame :: post ->
     exists i cached jobs_table tmp_table,
       In (GetRunningJobs (logdir cfg) cached
             (running_jobs w i (logdir cfg) cached)) pre /\
       header_region frame = tick_header i /\
       plots_region frame = capture_rich jobs_table /\
       disks_region frame = capture_rich tmp_table /\
       List.length (table_rows jobs_table) =
         List.length (running_jobs w i (logdir cfg) cached) /\
       List.length (table_rows tmp_table) =
         List.length (Directories.tmp (directories cfg))).
Proof.
  pose proof (with_rich_not_configured w cfg fuel) as Hnc.
  destruct (commonpath (Directories.tmp (directories cfg))) as [tp|] eqn:Et;
    [destruct (commonpath (Directories.dst (directories cfg))) as [dp|] eqn:Ed|].
  2, 3: destruct Hnc as [Hr Hp]; rewrite Hr, Hp;
        split; intros pre frame post Htr; now destruct pre.
  split; intros pre frame post Htr.
  - destruct (with_rich_follow w cfg tp dp fuel (conj Et Ed) pre frame post Htr)
      as (pre' & i & cached & Hpre & Hf).
    destruct (tick_frame_tables RTable tp dp i (running_jobs w i (logdir cfg) cached))
      as (jt & tt' & Hh & Hpl & Hd & Hlj & Hlt).
    exists i, cached, jt, tt'. rewrite Hf. repeat split; auto.
    rewrite Hpre. apply in_or_app. right. simpl. auto.
  - destruct (with_prompt_toolkit_follow w cfg tp dp fuel (conj Et Ed)
                pre frame post Htr) as (pre' & i & cached & Hpre & Hf).
    destruct (tick_frame_tables capture_rich tp dp i
                (running_jobs w i (logdir cfg) cached))
      as (jt & tt' & Hh & Hpl & Hd & Hlj & Hlt).
    exists i, cached, jt, tt'. rewrite Hf. repeat split; auto.
    rewrite Hpre. apply in_or_app. right. simpl. auto.
Qed.

End WaitingFacts.

(** ** Witnesses of the further properties *)

(** The run that reads [q] in slice 3 of tick 2 returns, and that read is
    the last thing before the clean-up. *)
Lemma with_rich_returns_only_on_quit_witness :
  exists pre keys,
    trace (fst (with_rich ex_world_quit ex_cfg 5 rich_init)) =
      pre ++ [ReadKeys keys; LiveStop; RawModeExit] /\
    existsb in_quit_keys keys = true.
Proof.
  apply (with_rich_returns_only_on_quit ex_world_quit ex_cfg 5).
  vm_compute. reflexivity.
Defined.

(** The idle world: three ticks allowed, three ticks run, still running. *)
Lemma with_rich_keeps_running_witness :
  snd (with_rich ex_world_idle ex_cfg 3 rich_init) = Running /\
  slept (ticks_events ex_world_idle ex_cfg RTable "/mnt" "/dst" 3 0 []) = 3000.
Proof.
  destruct (with_rich_keeps_running ex_world_idle ex_cfg "/mnt" "/dst" 3)
    as (Hrun & _ & Hslept).
  - repeat split; reflexivity.
  - reflexivity.
  - rewrite Hrun. split; [reflexivity|exact Hslept].
Defined.

(** The scope is cancelled during tick 2: the cooperative backend ends
    normally. *)
Lemma with_prompt_toolkit_ends_on_cancel_witness :
  snd (with_prompt_toolkit ex_world_quit ex_cfg 5 prompt_toolkit_init) = Ok tt.
Proof.
  rewrite (with_prompt_toolkit_ends_on_cancel ex_world_quit ex_cfg "/mnt" "/dst" 2 5).
  - reflexivity.
  - split; reflexivity.
  - reflexivity.
  - reflexivity.
  - reflexivity.
  - lia.
Defined.

(** A live display that cannot start, and one that can. *)
Lemma live_display_nested_in_raw_mode_witness :
  with_rich ex_world_no_live ex_cfg 5 rich_init =
    (log_events [RawModeEnter; RawModeExit] rich_init,
     Raise (Exception "LiveError")) /\
  exists mid,
    all_events inside_live mid /\
    trace (fst (with_rich ex_world_quit ex_cfg 5 rich_init)) =
      RawModeEnter :: LiveStart :: mid ++
        match snd (with_rich ex_world_quit ex_cfg 5 rich_init) with
        | Running => []
        | _ => [LiveStop; RawModeExit]
        end.
Proof.
  split.
  - apply (proj1 (live_display_nested_in_raw_mode ex_world_no_live ex_cfg
                    "/mnt" "/dst" 5 (conj eq_refl eq_refl) eq_refl)).
    reflexivity.
  - apply (proj2 (live_display_nested_in_raw_mode ex_world_quit ex_cfg
                    "/mnt" "/dst" 5 (conj eq_refl eq_refl) eq_refl)).
    reflexivity.
Defined.

(** ** The phases a row shows *)





Lemma subseq_refl {A} (l : list A) : subseq l l.
Proof. induction l; [apply subseq_nil|now apply subseq_keep]. Qed.


Section ShownPhases.
Context `{C : Collaborators}.


End ShownPhases.

(** *** Reading the example format back *)




















(** ** The readiness a row shows *)

Section ReadyFacts.
Context `{C : Collaborators}.

(** C7, as the code has it.  The [ready] attribute of the row of a tmp
    directory is fixed by the answer of the scheduling policy, asked
    about the phases of the jobs on that directory (all of them, in
    ascending order), the directory as the row names it, and the two
    configurations: it is the text [OK] when the policy permits a new
    job and the text [--] when it does not; and so it is for every row of
    [build_tmp_data], each of which is the row of a configured tmp
    directory. *)
Theorem ready_is_the_policy_on_the_sorted_phases (dir_cfg : Directories.t)
    (jobs : list Job) (sched_cfg : Scheduling) (prefix : string)
    (phase_ltb_asym : forall a b : Phase, phase_ltb a b = true -> phase_ltb b a = false) :
  (forall tmp,
     let phs := sorted phase_ltb (fun ph => ph) (job_phases_for_tmpdir tmp jobs) in
     Permutation phs (job_phases_for_tmpdir tmp jobs) /\
     Sorted (fun a b => phase_ltb b a = false) phs /\
     ready (from_tmp dir_cfg jobs sched_cfg tmp prefix) =
       VStr (if phases_permit_new_job phs (abbr_path tmp prefix) sched_cfg dir_cfg
             then "OK" else "--")) /\
  Forall (fun row =>
            exists tmp phs,
              In tmp (Directories.tmp dir_cfg) /\
              path row = VStr (abbr_path tmp prefix) /\
              Permutation phs (job_phases_for_tmpdir tmp jobs) /\
              Sorted (fun a b => phase_ltb b a = false) phs /\
              ready row =
                VStr (if phases_permit_new_job phs (abbr_path tmp prefix)
                           sched_cfg dir_cfg
                      then "OK" else "--"))
         (build_tmp_data jobs dir_cfg sched_cfg prefix) /\
  VStr "OK" <> VStr "--".
Proof.
  assert (Hrow : forall tmp,
            let phs := sorted phase_ltb (fun ph => ph) (job_phases_for_tmpdir tmp jobs) in
            Permutation phs (job_phases_for_tmpdir tmp jobs) /\
            Sorted (fun a b => phase_ltb b a = false) phs /\
            ready (from_tmp dir_cfg jobs sched_cfg tmp prefix) =
              VStr (if phases_permit_new_job phs (abbr_path tmp prefix) sched_cfg dir_cfg
                    then "OK" else "--")).
  { intros tmp phs. split; [apply sorted_Permutation|].
    split; [apply (sorted_Sorted phase_ltb (fun ph => ph) phase_ltb_asym)|].
    reflexivity. }
  split; [exact Hrow|]. split; [|discriminate].
  unfold build_tmp_data. apply Forall_map, Forall_forall. intros tmp Hin.
  destruct (Hrow tmp) as (Hp & Hs & Hr).
  exists tmp, (sorted phase_ltb (fun ph => ph) (job_phases_for_tmpdir tmp jobs)).
  split; [|split; [reflexivity|now repeat split]].
  exact (Permutation_in tmp (sorted_Permutation String.ltb (fun d => d) _) Hin).
Qed.

End ReadyFacts.

(** With the policy that wants every job past phase 1: the directory
    whose job is in phase 1:2 is not ready, the other one is. *)
Lemma ready_is_the_policy_on_the_sorted_phases_witness :
  map (fun row => (path row, ready row))
      (@build_tmp_data _ ex_collaborators_staggered ex_jobs ex_dirs tt "/mnt") =
    [(VStr "a", VStr "--"); (VStr "b", VStr "OK")] /\
  Forall (fun row =>
            exists tmp phs,
              In tmp ["/mnt/b"; "/mnt/a"] /\
              path row = VStr (ex_abbr_path tmp "/mnt") /\
              Permutation phs (ex_job_phases_for_tmpdir tmp ex_jobs) /\
              Sorted (fun a b => pair_ltb b a = false) phs /\
              ready row =
                VStr (if forallb (fun ph => negb (pair_ltb ph (2, 1))) phs
                      then "OK" else "--"))
         (@build_tmp_data _ ex_collaborators_staggered ex_jobs ex_dirs tt "/mnt").
Proof.
  split; [reflexivity|].
  exact (proj1 (proj2 (ready_is_the_policy_on_the_sorted_phases
                         (C := ex_collaborators_staggered)
                         ex_dirs ex_jobs tt "/mnt" pair_ltb_asym))).
Defined.

(** C7, counterexample.  With the policy stub that returns true the row
    shows the text [OK], not [ready]; and where the policy answers false
    the row shows [--], not [not ready]. *)
Lemma ready_is_shown_as_OK :
  phases_permit_new_job (Collaborators := ex_collaborators)
    [(1, 2)] "a" tt ex_dirs = true /\
  ready (from_tmp (C := ex_collaborators) ex_dirs ex_jobs tt "/mnt/a" "/mnt") = VStr "OK" /\
  ready (from_tmp (C := ex_collaborators) ex_dirs ex_jobs tt "/mnt/a" "/mnt") <> VStr "ready" /\
  phases_permit_new_job (Collaborators := ex_collaborators_staggered)
    [(1, 2)] "a" tt ex_dirs = false /\
  ready (from_tmp (C := ex_collaborators_staggered) ex_dirs ex_jobs tt "/mnt/a" "/mnt") =
    VStr "--" /\
  ready (from_tmp (C := ex_collaborators_staggered) ex_dirs ex_jobs tt "/mnt/a" "/mnt") <>
    VStr "not ready".
Proof. repeat split; try reflexivity; discriminate. Qed.

(** ** The frame painted when the display is closed *)

Section ClosingFacts.
Context `{C : Collaborators}.
Variable w : World.
Variable cfg : Config.
Variables tp dp : string.

Lemma log_event_keeps_screen (sc : Screen) (ev : event) (s : State) :
  is_sampling ev = false -> screen s = sc -> screen (log_event ev s) = sc.
Proof. intros _ Hs. exact Hs. Qed.

Lemma wait_for_input_keeps_screen i s :
  screen (fst (wait_for_input w i s)) = screen s.
Proof.
  assert (Hp : preserves (fun s' => screen s' = screen s) (wait_for_input w i)).
  { apply preserves_for_each. intros slice. unfold wait_slice, read_keys.
    apply preserves_bind.
    - destruct (fault w i (SReadKeys slice)); [apply preserves_raise|].
      apply preserves_bind; [|intros _; apply preserves_ret].
      apply preserves_emit; [apply log_event_keeps_screen|reflexivity].
    - intros ks. destruct (existsb in_quit_keys ks); [apply preserves_return|].
      apply preserves_emit; [apply log_event_keeps_screen|reflexivity]. }
  now apply Hp.
Qed.

Lemma anyio_sleep_keeps_screen i ms s :
  screen (fst (anyio_sleep w i ms s)) = screen s.
Proof. unfold anyio_sleep, bind, emit. simpl. now destruct (cancelled w i). Qed.

Lemma render_fault_raises i :
  clean_render w i = false ->
  (forall s, exists e, snd (with_rich_tick w cfg tp dp i s) = Raise e) /\
  (forall s, exists e, snd (with_prompt_toolkit_tick w cfg tp dp i s) = Raise e).
Proof.
  unfold clean_render. intros Hc.
  split; intros s;
    unfold with_rich_tick, with_prompt_toolkit_tick, bind, update,
      get_running_jobs, redraw, call; simpl;
    (destruct (fault w i SGetRunningJobs); simpl; [eexists; reflexivity|]);
    (destruct (fault w i SBuildJobsData); simpl; [eexists; reflexivity|]);
    (destruct (fault w i SBuildTmpData); simpl; [eexists; reflexivity|]);
    (destruct (fault w i SRedraw); simpl; [eexists; reflexivity|]);
    discriminate.
Qed.

(** A tick either raises or leaves the frame of that tick on the screen. *)
Lemma with_rich_tick_ends i s :
  (exists e, snd (with_rich_tick w cfg tp dp i s) = Raise e) \/
  of_one_tick w cfg RTable tp dp (screen (fst (with_rich_tick w cfg tp dp i s))).
Proof.
  destruct (clean_render w i) eqn:Hc.
  - right. rewrite (with_rich_tick_render w cfg tp dp i s Hc).
    rewrite wait_for_input_keeps_screen. cbn [screen].
    now exists i, (jobs s).
  - left. apply (proj1 (render_fault_raises i Hc)).
Qed.

Lemma with_prompt_toolkit_tick_ends i s :
  (exists e, snd (with_prompt_toolkit_tick w cfg tp dp i s) = Raise e) \/
  of_one_tick w cfg capture_rich tp dp
    (screen (fst (with_prompt_toolkit_tick w cfg tp dp i s))).
Proof.
  destruct (clean_render w i) eqn:Hc.
  - right. rewrite (with_prompt_toolkit_tick_render w cfg tp dp i s Hc).
    rewrite anyio_sleep_keeps_screen. cbn [screen].
    now exists i, (jobs s).
  - left. apply (proj2 (render_fault_raises i Hc)).
Qed.

(** The endless loop never falls through; and when it is left by
    [return] or by cancellation, what its last tick left is on the
    screen. *)
Lemma for_count_ends (P : Screen -> Prop) (body : nat -> M unit) :
  (forall j s, (exists e, snd (body j s) = Raise e) \/ P (screen (fst (body j s)))) ->
  forall fuel i s,
    match snd (for_count fuel i body s) with
    | Ok _ => False
    | Return_ | Cancel => P (screen (fst (for_count fuel i body s)))
    | Raise _ | Running => True
    end.
Proof.
  intros Hbody. induction fuel as [|fuel IH]; intros i s; [exact I|].
  cbn [for_count]. unfold bind. specialize (Hbody i s).
  destruct (body i s) as [s1 r] eqn:E. cbn [fst snd] in Hbody.
  destruct r; cbn [fst snd]; auto.
  - apply IH.
  - destruct Hbody as [[e He]|Hp]; [discriminate|exact Hp].
  - destruct Hbody as [[e He]|Hp]; [discriminate|exact Hp].
Qed.

Lemma existsb_last {A} (f : A -> bool) (l : list A) (x : A) :
  f x = true -> existsb f (l ++ [x]) = true.
Proof. intros Hx. rewrite existsb_app. simpl. rewrite Hx. apply orb_true_r. Qed.

Lemma with_rich_closing_frame fuel :
  configured cfg tp dp ->
  snd (with_rich w cfg fuel rich_init) = Ok tt ->
  exists frame,
    closing_frame is_live_stop (with_rich w cfg fuel rich_init) = Some frame /\
    of_one_tick w cfg RTable tp dp frame.
Proof.
  intros Hcfg. rewrite (with_rich_configured w cfg tp dp fuel Hcfg).
  unfold closing_frame, def, with_.
  destruct (raw_mode_fault w); [discriminate|].
  destruct (live_fault w); [discriminate|].
  pose proof (for_count_ends (of_one_tick w cfg RTable tp dp)
                (with_rich_tick w cfg tp dp) with_rich_tick_ends fuel 0%nat
                (log_event LiveStart (log_event RawModeEnter rich_init))) as Hf.
  destruct (for_count fuel 0 (with_rich_tick w cfg tp dp)
              (log_event LiveStart (log_event RawModeEnter rich_init)))
    as [s' r].
  cbn [fst snd] in Hf. destruct r; cbn [fst snd]; try discriminate;
    try contradiction.
  intros _. exists (screen s'). split; [|exact Hf].
  cbn [log_event trace screen].
  rewrite <- app_assoc, existsb_app.
  cbn [existsb app is_live_stop]. now rewrite orb_true_r.
Qed.

Lemma with_prompt_toolkit_closing_frame fuel :
  configured cfg tp dp ->
  snd (with_prompt_toolkit w cfg fuel prompt_toolkit_init) = Ok tt ->
  exists frame,
    closing_frame is_task_group_exit
      (with_prompt_toolkit w cfg fuel prompt_toolkit_init) = Some frame /\
    of_one_tick w cfg capture_rich tp dp frame.
Proof.
  intros Hcfg. rewrite (with_prompt_toolkit_configured w cfg tp dp fuel Hcfg).
  unfold closing_frame, def, task_group, bind, emit. cbn [fst snd].
  set (s0 := log_event StartSoon
               (log_event (AddKeyBinding "c-c")
                  (log_event (AddKeyBinding "q")
                     (log_event TaskGroupEnter prompt_toolkit_init)))).
  pose proof (for_count_ends (of_one_tick w cfg capture_rich tp dp)
                (with_prompt_toolkit_tick w cfg tp dp)
                with_prompt_toolkit_tick_ends fuel 0%nat s0) as Hf.
  destruct (for_count fuel 0 (with_prompt_toolkit_tick w cfg tp dp) s0) as [s' r].
  cbn [fst snd] in Hf. destruct r; cbn [fst snd]; try discriminate;
    try contradiction;
    (intros _; exists (screen s'); split; [|exact Hf];
     cbn [log_event trace screen]; now rewrite existsb_last).
Qed.

End ClosingFacts.

Section ClosingClaim.
Context `{C : Collaborators}.
Variable w : World.
Variable cfg : Config.

(** C4, as the code has it.  In both backends every redraw request comes
    right after the header, the sampling, the jobs table and the tmp
    table of one and the same tick have been written to the screen
    model, and the frame it shows is exactly these.  The frame painted
    when the display is closed is of one tick as well when the loop was
    left by a quit key (polling backend) or by cancellation (cooperative
    backend). *)
Theorem redraws_and_closing_paint_show_one_tick (fuel : nat) :
  match commonpath (Directories.tmp (directories cfg)),
        commonpath (Directories.dst (directories cfg)) with
  | Some tmp_prefix, Some dst_prefix =>
      redraws_follow_updates w cfg RTable tmp_prefix dst_prefix
        (trace (fst (with_rich w cfg fuel rich_init))) /\
      redraws_follow_updates w cfg capture_rich tmp_prefix dst_prefix
        (trace (fst (with_prompt_toolkit w cfg fuel prompt_toolkit_init))) /\
      (snd (with_rich w cfg fuel rich_init) = Ok tt ->
       exists frame,
         closing_frame is_live_stop (with_rich w cfg fuel rich_init) = Some frame /\
         of_one_tick w cfg RTable tmp_prefix dst_prefix frame) /\
      (snd (with_prompt_toolkit w cfg fuel prompt_toolkit_init) = Ok tt ->
       exists frame,
         closing_frame is_task_group_exit
           (with_prompt_toolkit w cfg fuel prompt_toolkit_init) = Some frame /\
         of_one_tick w cfg capture_rich tmp_prefix dst_prefix frame)
  | _, _ =>
      trace (fst (with_rich w cfg fuel rich_init)) = [] /\
      trace (fst (with_prompt_toolkit w cfg fuel prompt_toolkit_init)) = []
  end.
Proof.
  pose proof (with_rich_not_configured w cfg fuel) as Hnc.
  destruct (commonpath (Directories.tmp (directories cfg))) as [tp|] eqn:Et;
    [destruct (commonpath (Directories.dst (directories cfg))) as [dp|] eqn:Ed|].
  - assert (Hcfg : configured cfg tp dp) by now split.
    split; [now apply with_rich_follow|].
    split; [now apply with_prompt_toolkit_follow|].
    split; [now apply with_rich_closing_frame|
            now apply with_prompt_toolkit_closing_frame].
  - destruct Hnc as [-> ->]. now split.
  - destruct Hnc as [-> ->]. now split.
Qed.

End ClosingClaim.

(** The run in which [q] is typed in tick 2, and the scope is cancelled
    in tick 2: both displays close on a frame of one tick. *)
Lemma redraws_and_closing_paint_show_one_tick_witness :
  snd (with_rich ex_world_quit ex_cfg 5 rich_init) = Ok tt /\
  snd (with_prompt_toolkit ex_world_quit ex_cfg 5 prompt_toolkit_init) = Ok tt /\
  (exists frame,
     closing_frame is_live_stop (with_rich ex_world_quit ex_cfg 5 rich_init) =
       Some frame /\
     of_one_tick ex_world_quit ex_cfg RTable "/mnt" "/dst" frame) /\
  (exists frame,
     closing_frame is_task_group_exit
       (with_prompt_toolkit ex_world_quit ex_cfg 5 prompt_toolkit_init) = Some frame /\
     of_one_tick ex_world_quit ex_cfg capture_rich "/mnt" "/dst" frame).
Proof.
  assert (Hr : snd (with_rich ex_world_quit ex_cfg 5 rich_init) = Ok tt)
    by (vm_compute; reflexivity).
  assert (Hp : snd (with_prompt_toolkit ex_world_quit ex_cfg 5 prompt_toolkit_init) = Ok tt)
    by (vm_compute; reflexivity).
  split; [exact Hr|]. split; [exact Hp|].
  pose proof (redraws_and_closing_paint_show_one_tick ex_world_quit ex_cfg 5) as H.
  assert (Ht : commonpath (Directories.tmp (directories ex_cfg)) = Some "/mnt")
    by reflexivity.
  assert (Hd : commonpath (Directories.dst (directories ex_cfg)) = Some "/dst")
    by reflexivity.
  rewrite Ht, Hd in H. destruct H as (_ & _ & Hrich & Hpt).
  split; [exact (Hrich Hr)|exact (Hpt Hp)].
Defined.

(** C4, counterexample.  The jobs have gone after tick 0 and job
    discovery raises in tick 1: the header of tick 1 has been written,
    the tables have not, and the frame painted when the display is
    closed shows the header of tick 1 over the tables of tick 0; it is
    the frame of no tick. *)
Lemma closing_paint_mixes_two_ticks :
  (exists frame,
     snd (with_rich ex_world_fault_late ex_cfg 5 rich_init) =
       Raise (Exception "OSError") /\
     closing_frame is_live_stop (with_rich ex_world_fault_late ex_cfg 5 rich_init) =
       Some frame /\
     header_region frame = tick_header 1 /\
     plots_region frame = plots_region (tick_frame ex_cfg RTable "/mnt" "/dst" 0 ex_jobs) /\
     disks_region frame = disks_region (tick_frame ex_cfg RTable "/mnt" "/dst" 0 ex_jobs) /\
     ~ of_one_tick ex_world_fault_late ex_cfg RTable "/mnt" "/dst" frame) /\
  (exists frame,
     snd (with_prompt_toolkit ex_world_fault_late ex_cfg 5 prompt_toolkit_init) =
       Raise (Exception "OSError") /\
     closing_frame is_task_group_exit
       (with_prompt_toolkit ex_world_fault_late ex_cfg 5 prompt_toolkit_init) =
       Some frame /\
     header_region frame = tick_header 1 /\
     plots_region frame =
       plots_region (tick_frame ex_cfg capture_rich "/mnt" "/dst" 0 ex_jobs) /\
     disks_region frame =
       disks_region (tick_frame ex_cfg capture_rich "/mnt" "/dst" 0 ex_jobs) /\
     ~ of_one_tick ex_world_fault_late ex_cfg capture_rich "/mnt" "/dst" frame).
Proof.
  split.
  - exists (screen (fst (with_rich ex_world_fault_late ex_cfg 5 rich_init))).
    split; [vm_compute; reflexivity|]. split; [vm_compute; reflexivity|].
    split; [vm_compute; reflexivity|]. split; [vm_compute; reflexivity|].
    split; [vm_compute; reflexivity|].
    intros (i & cached & Hf).
    assert (Hi : i = 1%nat).
    { apply tick_header_inj. symmetry.
      exact (f_equal header_region Hf). }
    subst i. apply (f_equal plots_region) in Hf. vm_compute in Hf. discriminate.
  - exists (screen (fst (with_prompt_toolkit ex_world_fault_late ex_cfg 5
                           prompt_toolkit_init))).
    split; [vm_compute; reflexivity|]. split; [vm_compute; reflexivity|].
    split; [vm_compute; reflexivity|]. split; [vm_compute; reflexivity|].
    split; [vm_compute; reflexivity|].
    intros (i & cached & Hf).
    assert (Hi : i = 1%nat).
    { apply tick_header_inj. symmetry.
      exact (f_equal header_region Hf). }
    subst i. apply (f_equal plots_region) in Hf. vm_compute in Hf. discriminate.
Qed.
